(** * Support ticketing system: a shallow embedding of [app.py]

    The class [SupportTicketingSystem] polls a mailbox, parses every unseen
    message, stores one ticket per message in a MongoDB collection and mails
    a confirmation back.  The development below embeds its methods as
    functions over an explicit world (the collection, the clock reads, the
    standard output and the mails handed to SMTP) and proves the properties
    of ticket-id generation, ticket creation and message parsing. *)

From Stdlib Require Import ZArith NArith List Bool Ascii String Lia Sorted.
Import ListNotations.

Set Warnings "-register-all".

Local Open Scope string_scope.
Local Open Scope Z_scope.

(** ** Python values used by the program *)

(** A [bytes] object is a sequence of octets.  A Python [str] is kept as the
    octets of its UTF-8 encoding, so that emptiness, concatenation and ASCII
    literals read as in the source. *)
Definition bytes := string.
Definition pystr := string.

Module Py.

(** Truth value of a string: only the empty one is false. *)
Definition truthy (s : string) : bool :=
  match s with
  | EmptyString => false
  | String _ _ => true
  end.

(** [x or d] for an optional string [x]: [None] and [""] yield [d]. *)
Definition or_else (x : option pystr) (d : pystr) : pystr :=
  match x with
  | Some s => if truthy s then s else d
  | None => d
  end.

(** [not x] for an optional string. *)
Definition falsy (x : option pystr) : bool :=
  match x with
  | Some s => negb (truthy s)
  | None => true
  end.

(** [str(x)] for an optional string: [str(None)] is the text [None]. *)
Definition str_opt (x : option pystr) : pystr :=
  match x with
  | Some s => s
  | None => "None"
  end.

Definition ascii_of_digit (d : N) : ascii := ascii_of_N (48 + d).

(** Decimal digits of [n], most significant first, pushed in front of [acc].
    [fuel] bounds the number of digits. *)
Fixpoint str_digits (fuel : nat) (n : N) (acc : string) : string :=
  match fuel with
  | O => acc
  | S f =>
      let acc' := String (ascii_of_digit (n mod 10)) acc in
      if (n / 10 =? 0)%N then acc' else str_digits f (n / 10) acc'
  end.

(** [str(n)] for a non-negative integer: a number has no more decimal digits
    than binary ones. *)
Definition str (n : N) : string :=
  str_digits (S (N.to_nat (N.log2 n))) n "".

Fixpoint zeros (k : nat) : string :=
  match k with
  | O => ""
  | S k' => String "0" (zeros k')
  end.

(** [s.zfill(width)] on a string without sign. *)
Definition zfill (width : nat) (s : string) : string :=
  zeros (width - String.length s) ++ s.

Definition digit_of_ascii (c : ascii) : option Z :=
  let n := Z.of_N (N_of_ascii c) in
  if (48 <=? n) && (n <=? 57) then Some (n - 48) else None.

Fixpoint int_acc (s : string) (acc : Z) : option Z :=
  match s with
  | EmptyString => Some acc
  | String c s' =>
      match digit_of_ascii c with
      | Some d => int_acc s' (10 * acc + d)
      | None => None
      end
  end.

(** [int(s)] on an unsigned decimal literal; [None] stands for the
    [ValueError] raised on anything else the program could build. *)
Definition int (s : string) : option Z :=
  match s with
  | EmptyString => None
  | _ => int_acc s 0
  end.

(** [reads_as s v]: [s] is a run of decimal digits of value [v]. *)
Definition reads_as (s : string) (v : Z) : Prop :=
  forall a, int_acc s a = Some (a * 10 ^ Z.of_nat (String.length s) + v).

(** [needle in hay]. *)
Fixpoint contains (needle hay : string) : bool :=
  String.prefix needle hay ||
  match hay with
  | EmptyString => false
  | String _ hay' => contains needle hay'
  end.

(** [s.replace(old, new)] for a non-empty [old]: occurrences are replaced
    left to right and do not overlap; [skip] counts the characters of a
    match that are still to be dropped. *)
Fixpoint replace_from (old new : string) (skip : nat) (s : string) : string :=
  match s with
  | EmptyString => ""
  | String c s' =>
      match skip with
      | S k => replace_from old new k s'
      | O =>
          if String.prefix old s
          then new ++ replace_from old new (String.length old - 1) s'
          else String c (replace_from old new 0 s')
      end
  end.

Definition replace (s old new : string) : string := replace_from old new 0 s.

Definition lower_ascii (c : ascii) : ascii :=
  let n := N_of_ascii c in
  if ((65 <=? n) && (n <=? 90))%N then ascii_of_N (n + 32) else c.

Fixpoint lower (s : string) : string :=
  match s with
  | EmptyString => ""
  | String c s' => String (lower_ascii c) (lower s')
  end.

End Py.

(** ** The clock *)

(** What [datetime.now()] returns. *)
Record DateTime := {
  year : N;
  month : N;
  day : N;
  hour : N;
  minute : N;
  second : N;
  microsecond : N
}.

(** [dt.strftime("%d")]: the day of the month on two digits. *)
Definition strftime_d (dt : DateTime) : string := Py.zfill 2 (Py.str (day dt)).

(** Dates the [datetime] type can hold (month lengths are not needed). *)
Definition valid_date (dt : DateTime) : Prop :=
  (1 <= year dt <= 9999)%N /\ (1 <= month dt <= 12)%N /\ (1 <= day dt <= 31)%N.

Definition same_date (a b : DateTime) : Prop :=
  year a = year b /\ month a = month b /\ day a = day b.

(** ** Header values as the [email] package presents them *)

(** One part of what [email.header.decode_header] returns: the decoded text
    is [bytes] when the header holds an encoded word and a [str] when it
    holds none. *)
Inductive Chunk :=
| CBytes (b : bytes)
| CStr (s : pystr).

(** A header of a parsed message.  [raw] is its text, what [str()] makes
    of the value [msg.get] returns.  [as_object] tells whether that value
    is a [str] or, as for a header that holds raw octets above 127, a
    [Header] object of the library.  [decode_header] is the list
    [email.header.decode_header] splits the value into; that function
    belongs to the Python library, not to the program, so its result is
    data of the message here. *)
Record Header := {
  raw : pystr;
  as_object : bool;
  decode_header : list (Chunk * option pystr)
}.

(** What [msg.get(name)] returns for a header that is present. *)
Inductive HeaderValue :=
| Str (s : pystr)
| Obj (h : Header).

Definition value_of (h : Header) : HeaderValue :=
  if as_object h then Obj h else Str (raw h).

Module Val.

(** Truth value: a [str] is false when empty, a [Header] object is always
    true (the class defines neither [__bool__] nor [__len__]). *)
Definition truthy (v : HeaderValue) : bool :=
  match v with
  | Str s => Py.truthy s
  | Obj _ => true
  end.

(** [not x] for an optional value. *)
Definition falsy (x : option HeaderValue) : bool :=
  match x with
  | Some v => negb (truthy v)
  | None => true
  end.

(** [x or d]. *)
Definition or_else (x : option HeaderValue) (d : pystr) : HeaderValue :=
  match x with
  | Some v => if truthy v then v else Str d
  | None => Str d
  end.

(** [str(v)]. *)
Definition str (v : HeaderValue) : pystr :=
  match v with
  | Str s => s
  | Obj h => raw h
  end.

End Val.

(** ** The ticket store *)

(** A field that holds text in the sentinel and a timestamp in a ticket. *)
Inductive Value :=
| VStr (s : pystr)
| VDate (t : DateTime).

(** The keys of a ticket.  The dict the program builds may hold any
    header value as sender ([Dict]); a stored document holds text
    ([Doc]). *)
Record Document (S : Type) := {
  _id : Z;
  ticket_id : Z;
  sender : S;
  subject : pystr;
  message : pystr;
  status : pystr;
  created_at : Value;
  updated_at : Value
}.
Arguments Build_Document {S}.
Arguments _id {S} d.
Arguments ticket_id {S} d.
Arguments sender {S} d.
Arguments subject {S} d.
Arguments message {S} d.
Arguments status {S} d.
Arguments created_at {S} d.
Arguments updated_at {S} d.

(** A document of the collection [threads]. *)
Definition Doc : Type := Document pystr.

(** A dict handed to [insert_one]. *)
Definition Dict : Type := Document HeaderValue.

(** A datetime as BSON keeps it: to the millisecond. *)
Definition to_millis (t : DateTime) : DateTime :=
  {| year := year t; month := month t; day := day t;
     hour := hour t; minute := minute t; second := second t;
     microsecond := (microsecond t / 1000 * 1000)%N |}.

Definition bson_value (v : Value) : Value :=
  match v with
  | VStr s => VStr s
  | VDate t => VDate (to_millis t)
  end.

(** The BSON encoding pymongo makes of a dict before it sends it, read
    back as the stored document: text stays text, a datetime is cut to
    milliseconds, and a [Header] object has no encoding ([None]). *)
Definition bson_encode (d : Dict) : option Doc :=
  match sender d with
  | Obj _ => None
  | Str s =>
      Some {| _id := _id d;
              ticket_id := ticket_id d;
              sender := s;
              subject := subject d;
              message := message d;
              status := status d;
              created_at := bson_value (created_at d);
              updated_at := bson_value (updated_at d) |}
  end.

(** ** What the program prints and sends *)

Inductive LogLine :=
| LoginError                          (* "Error Occurred during login:" e *)
| InboxFailed                         (* "Failed to connect to Inbox" *)
| NoNewThreads                        (* "No new threads found." *)
| FetchFailed (email_id : bytes)      (* "Failed to fetch email {email_id}." *)
| TicketCreated (new_ticket_id : Z)   (* "Ticket created with ID: {id}" *)
| SenderNotDefined                    (* "Sender not defined. Email not sent." *)
| PrintSender (sender : pystr)        (* print(sender) *)
| SendFailed.                         (* "Failed to send email:" e *)

(** The message handed to [smtp_server.send_message]; [mail_to] is the
    value assigned to [msg['To']]. *)
Record Mail := {
  mail_from : option pystr;
  mail_to : HeaderValue;
  mail_subject : pystr;
  mail_html : pystr
}.

(** ** Messages as the [email] package presents them *)

(** A parsed message ([email.message_from_bytes]).  [headers] is in message
    order; the content type is what [get_content_type()] returns; a leaf
    holds the octets [get_payload(decode=True)] returns. *)
Inductive Message :=
| Leaf (headers : list (string * Header)) (content_type : string)
       (payload : bytes)
| Multipart (headers : list (string * Header)) (content_type : string)
            (parts : list Message).

Definition headers_of (m : Message) : list (string * Header) :=
  match m with
  | Leaf h _ _ => h
  | Multipart h _ _ => h
  end.

Definition get_content_type (m : Message) : string :=
  match m with
  | Leaf _ c _ => c
  | Multipart _ c _ => c
  end.

Definition is_multipart (m : Message) : bool :=
  match m with
  | Leaf _ _ _ => false
  | Multipart _ _ _ => true
  end.

(** [part.get_payload(decode=True)]: [None] on a multipart. *)
Definition get_payload_decode (m : Message) : option bytes :=
  match m with
  | Leaf _ _ p => Some p
  | Multipart _ _ _ => None
  end.

(** [msg.get(name)]: the first header of that name, names compared without
    regard to case. *)
Fixpoint lookup_header (name : string) (hs : list (string * Header))
  : option Header :=
  match hs with
  | [] => None
  | (k, v) :: hs' =>
      if String.eqb (Py.lower k) (Py.lower name) then Some v
      else lookup_header name hs'
  end.

Definition get (m : Message) (name : string) : option Header :=
  lookup_header name (headers_of m).

(** [msg.walk()]: the message itself, then every part, depth first. *)
Fixpoint walk (m : Message) : list Message :=
  m :: match m with
       | Leaf _ _ _ => []
       | Multipart _ _ ps => flat_map walk ps
       end.

(** UTF-8 well-formedness (Unicode, table 3-7), which the strict [utf-8]
    codec enforces. *)
Definition in_range (lo hi : N) (c : ascii) : bool :=
  let n := N_of_ascii c in ((lo <=? n) && (n <=? hi))%N.

Fixpoint utf8_valid (b : bytes) : bool :=
  match b with
  | EmptyString => true
  | String c1 r1 =>
      if in_range 0 127 c1 then utf8_valid r1 else
      match r1 with
      | EmptyString => false
      | String c2 r2 =>
          if in_range 194 223 c1 then in_range 128 191 c2 && utf8_valid r2 else
          match r2 with
          | EmptyString => false
          | String c3 r3 =>
              if in_range 224 224 c1
              then in_range 160 191 c2 && in_range 128 191 c3 && utf8_valid r3
              else if in_range 225 236 c1 || in_range 238 239 c1
              then in_range 128 191 c2 && in_range 128 191 c3 && utf8_valid r3
              else if in_range 237 237 c1
              then in_range 128 159 c2 && in_range 128 191 c3 && utf8_valid r3
              else
              match r3 with
              | EmptyString => false
              | String c4 r4 =>
                  let tail := in_range 128 191 c3 && in_range 128 191 c4
                              && utf8_valid r4 in
                  if in_range 240 240 c1 then in_range 144 191 c2 && tail
                  else if in_range 241 243 c1 then in_range 128 191 c2 && tail
                  else if in_range 244 244 c1 then in_range 128 143 c2 && tail
                  else false
              end
          end
      end
  end.

(** ** Exceptions and outcomes *)

Inductive exn :=
| ValueError
| TypeError
| IndexError
| AttributeError
| LookupError
| UnicodeDecodeError
| InvalidDocument
| DuplicateKeyError.

Inductive outcome (A : Type) :=
| Ok (a : A)
| Raise (e : exn).
Arguments Ok {A} a.
Arguments Raise {A} e.

(** ** The world the program runs in *)

(** What the program changes. *)
Record World := {
  collection : list Doc;     (* the documents of [threads], oldest first *)
  clock_reads : nat;         (* calls of [datetime.now()] made so far *)
  stdout : list LogLine;     (* lines printed, oldest first *)
  outbox : list Mail         (* mails accepted by the SMTP server *)
}.

(** What the program only reads during one poll cycle. *)
Record Env := {
  clock : nat -> DateTime;            (* result of the n-th [datetime.now()] *)
  codecs : string -> option (bytes -> option pystr);
                                      (* codec registry, [utf-8] apart *)
  login_ok : bool;                    (* IMAP connection and login succeed *)
  select_status : string;             (* status of [select('Inbox')] *)
  unseen : list bytes;                (* ids found by [search(None, 'UNSEEN')] *)
  fetch : bytes -> string * Message;  (* status and parsed RFC822 data *)
  recipient_name : option pystr;      (* RECIPIENT_NAME of the environment *)
  index_html : option pystr;          (* index.html, [None] when unreadable *)
  smtp_ok : bool                      (* connect, starttls, login, send *)
}.

(** Computations that read and change the world and may raise; what was
    done before an exception stays done. *)
Definition M (A : Type) : Type := World -> outcome A * World.

Definition ret {A} (a : A) : M A := fun w => (Ok a, w).

Definition raise {A} (e : exn) : M A := fun w => (Raise e, w).

Definition bind {A B} (m : M A) (k : A -> M B) : M B :=
  fun w =>
    match m w with
    | (Ok a, w') => k a w'
    | (Raise e, w') => (Raise e, w')
    end.

Definition lift {A} (o : outcome A) : M A := fun w => (o, w).

Declare Scope py_scope.
Delimit Scope py_scope with py.
Notation "x <- m ;; k" := (bind m (fun x => k))
  (at level 61, m at next level, right associativity) : py_scope.
Notation "m ;; k" := (bind m (fun _ => k))
  (at level 61, right associativity) : py_scope.
Local Open Scope py_scope.

Definition print (l : LogLine) : M unit :=
  fun w => (Ok tt, {| collection := collection w;
                      clock_reads := clock_reads w;
                      stdout := stdout w ++ [l];
                      outbox := outbox w |}).

(** ** MongoDB operations on the collection *)

Definition has_id (k : Z) (ds : list Doc) : bool :=
  existsb (fun d => _id d =? k) ds.

(** [insert_one]: the dict is encoded first, which fails with
    [InvalidDocument] on a value BSON cannot hold; then the server refuses
    an [_id] already in use. *)
Definition insert_one (d : Dict) : M unit :=
  fun w =>
    match bson_encode d with
    | None => (Raise InvalidDocument, w)
    | Some doc =>
        if has_id (_id doc) (collection w) then (Raise DuplicateKeyError, w)
        else (Ok tt, {| collection := collection w ++ [doc];
                        clock_reads := clock_reads w;
                        stdout := stdout w;
                        outbox := outbox w |})
    end.

(** [find_one()]: some document, [None] on an empty collection. *)
Definition find_one : M (option Doc) :=
  fun w => (Ok (hd_error (collection w)), w).

Fixpoint max_by_id (best : Doc) (ds : list Doc) : Doc :=
  match ds with
  | [] => best
  | d :: ds' => max_by_id (if _id best <? _id d then d else best) ds'
  end.

(** [find_one(sort=[('_id', -1)])]: the document with the greatest [_id]. *)
Definition find_one_sort_id_desc : M (option Doc) :=
  fun w =>
    (Ok match collection w with
        | [] => None
        | d :: ds => Some (max_by_id d ds)
        end, w).

(** ** The methods of [SupportTicketingSystem] *)

Definition sentinel_id : Z := 10000000000000.

(** [int(f"{year}{str(month).zfill(2)}{date}{counter}")]. *)
Definition initial_ticket_id (year month : N) (date : string) (counter : N)
  : option Z :=
  Py.int (Py.str year ++ Py.zfill 2 (Py.str month) ++ date ++ Py.str counter).

Section Methods.

Variable env : Env.

Definition now : M DateTime :=
  fun w => (Ok (clock env (clock_reads w)),
            {| collection := collection w;
               clock_reads := S (clock_reads w);
               stdout := stdout w;
               outbox := outbox w |}).

(** [bytes.decode(encoding)], strict. *)
Definition bytes_decode (encoding : string) (b : bytes) : outcome pystr :=
  if String.eqb encoding "utf-8"
  then (if utf8_valid b then Ok b else Raise UnicodeDecodeError)
  else match codecs env encoding with
       | None => Raise LookupError
       | Some codec =>
           match codec b with
           | Some s => Ok s
           | None => Raise UnicodeDecodeError
           end
       end.

Definition connect_to_mail_service : M bool :=
  if login_ok env then ret true
  else print LoginError ;; ret false.

Definition fetch_unseen_emails : M (list bytes) :=
  if negb (String.eqb (select_status env) "OK")
  then print InboxFailed ;; ret []
  else
    let email_ids := unseen env in
    match email_ids with
    | [] => print NoNewThreads ;; ret []
    | _ => ret email_ids
    end.

(** The loop over [msg.walk()] of [parse_email], left at the first part
    that passes the test. *)
Fixpoint walk_loop (todo : list Message) : outcome (option pystr) :=
  match todo with
  | [] => Ok None
  | part :: rest =>
      let content_type := get_content_type part in
      let content_disposition :=
        Py.str_opt (option_map raw (get part "Content-Disposition")) in
      if String.eqb content_type "text/plain"
         && negb (Py.contains "attachment" content_disposition)
      then
        match get_payload_decode part with
        | None => Raise AttributeError
        | Some b =>
            match bytes_decode "utf-8" b with
            | Ok s => Ok (Some s)
            | Raise e => Raise e
            end
        end
      else walk_loop rest
  end.

Definition parse_email (email_id : bytes)
  : M (option HeaderValue * option pystr * option pystr) :=
  let '(status, msg) := fetch env email_id in
  if negb (String.eqb status "OK")
  then print (FetchFailed email_id) ;; ret (None, None, None)
  else
    let sender := option_map value_of (get msg "From") in
    let subject := get msg "Subject" in
    ticket_subject <-
      match subject with
      | Some h =>
          if Val.truthy (value_of h) then
            match decode_header h with
            | [] => raise IndexError
            | (CStr s, _) :: _ => ret s
            | (CBytes b, encoding) :: _ =>
                lift (bytes_decode
                        (if Py.falsy encoding then "utf-8"
                         else Py.str_opt encoding) b)
            end
          else ret "No Subject"
      | None => ret "No Subject"
      end ;;
    ticket_message <-
      (if is_multipart msg then lift (walk_loop (walk msg))
       else match get_payload_decode msg with
            | None => raise AttributeError
            | Some b => s <- lift (bytes_decode "utf-8" b) ;; ret (Some s)
            end) ;;
    ret (sender, Some ticket_subject, ticket_message).

Definition generate_ticket_id : M Z :=
  empty_check <- find_one ;;
  match empty_check with
  | None =>
      t1 <- now ;;
      let year := year t1 in
      t2 <- now ;;
      let month := month t2 in
      t3 <- now ;;
      let date := strftime_d t3 in
      let counter := 100000%N in
      match initial_ticket_id year month date counter with
      | None => raise ValueError
      | Some initial_ticket_id =>
          insert_one {| _id := sentinel_id;
                        ticket_id := initial_ticket_id;
                        sender := Str "";
                        subject := "";
                        message := "";
                        status := "";
                        created_at := VStr "";
                        updated_at := VStr "" |} ;;
          ret initial_ticket_id
      end
  | Some _ =>
      latest <- find_one_sort_id_desc ;;
      match latest with
      | None => raise TypeError
      | Some latest => ret (_id latest + 1)
      end
  end.

Definition create_ticket (sender : option HeaderValue)
  (ticket_subject ticket_message : option pystr) : M Z :=
  new_ticket_id <- generate_ticket_id ;;
  created <- now ;;
  updated <- now ;;
  let schema := {| _id := new_ticket_id;
                   ticket_id := new_ticket_id;
                   sender := Val.or_else sender "Unknown Sender";
                   subject := Py.or_else ticket_subject "No Subject";
                   message := Py.or_else ticket_message "No Content";
                   status := "open";
                   created_at := VDate created;
                   updated_at := VDate updated |} in
  insert_one schema ;;
  print (TicketCreated new_ticket_id) ;;
  ret new_ticket_id.

Definition smtp_send (m : Mail) : M unit :=
  fun w => (Ok tt, {| collection := collection w;
                      clock_reads := clock_reads w;
                      stdout := stdout w;
                      outbox := outbox w ++ [m] |}).

(** [str(new_ticket_id)]; ids below zero do not occur but print as in
    Python. *)
Definition str_id (n : Z) : string :=
  if n <? 0 then "-" ++ Py.str (Z.to_N (- n)) else Py.str (Z.to_N n).

Definition send_ticket_email (sender : option HeaderValue)
  (new_ticket_id : Z) : M unit :=
  match sender with
  | None => print SenderNotDefined
  | Some to =>
      if negb (Val.truthy to) then print SenderNotDefined
      else
        match index_html env with
        | None => print SendFailed
        | Some html_content =>
            print (PrintSender (Val.str to)) ;;
            let html_content :=
              Py.replace html_content "[CLIENT_NAME]" (Val.str to) in
            let html_content :=
              Py.replace html_content "[TICKET_NUMBER]"
                (str_id new_ticket_id) in
            if smtp_ok env
            then smtp_send {| mail_from := recipient_name env;
                              mail_to := to;
                              mail_subject := "Support Ticket Update";
                              mail_html := html_content |}
            else print SendFailed
        end
  end.

(** The body of the [for] loop of [process_emails]. *)
Definition process_one (email_id : bytes) : M unit :=
  parsed <- parse_email email_id ;;
  let '(sender, ticket_subject, ticket_message) := parsed in
  new_ticket_id <- create_ticket sender ticket_subject ticket_message ;;
  send_ticket_email sender new_ticket_id.

Fixpoint for_each (email_ids : list bytes) : M unit :=
  match email_ids with
  | [] => ret tt
  | email_id :: rest => process_one email_id ;; for_each rest
  end.

Definition process_emails : M unit :=
  connected <- connect_to_mail_service ;;
  if negb connected then ret tt
  else
    email_ids <- fetch_unseen_emails ;;
    match email_ids with
    | [] => ret tt
    | _ => for_each email_ids
    end.

End Methods.

(** ** Vocabulary of the properties *)

(** [m] is the greatest [_id] present in [ds]. *)
Definition is_max_id (ds : list Doc) (m : Z) : Prop :=
  (exists d, In d ds /\ _id d = m) /\ (forall d, In d ds -> _id d <= m).

(** The arguments of one call of [create_ticket] whose sender, when there
    is one, is text. *)
Definition Request : Type := option pystr * option pystr * option pystr.

(** What [parse_email] returns: sender, subject, body. *)
Definition Parsed : Type := option HeaderValue * option pystr * option pystr.

Definition as_parsed (r : Request) : Parsed :=
  let '(sender, ticket_subject, ticket_message) := r in
  (option_map Str sender, ticket_subject, ticket_message).

(** A sequence of ticket creations; the ids come back in creation order. *)
Fixpoint create_all (env : Env) (reqs : list Request) : M (list Z) :=
  match reqs with
  | [] => ret []
  | (sender, ticket_subject, ticket_message) :: rest =>
      new_ticket_id <-
        create_ticket env (option_map Str sender) ticket_subject
          ticket_message ;;
      ids <- create_all env rest ;;
      ret (new_ticket_id :: ids)
  end.

(** The id a date seeds, as a number: [YYYYMMDD] followed by [100000]. *)
Definition date_seed (y m d : N) : Z :=
  ((Z.of_N y * 100 + Z.of_N m) * 100 + Z.of_N d) * 1000000 + 100000.

(** The sentinel [generate_ticket_id] seeds an empty collection with. *)
Definition sentinel_doc (initial_ticket_id : Z) : Doc :=
  {| _id := sentinel_id;
     ticket_id := initial_ticket_id;
     sender := "";
     subject := "";
     message := "";
     status := "";
     created_at := VStr "";
     updated_at := VStr "" |}.

(** A field of a ticket: the text given, or the default when the text is
    missing or empty. *)
Definition defaulted (x : option pystr) (d : pystr) : pystr :=
  match x with
  | None => d
  | Some EmptyString => d
  | Some (String c s) => String c s
  end.

(** The document [create_ticket] stores for a text request, with the two
    timestamps as stored. *)
Definition ticket_doc (new_ticket_id : Z) (r : Request)
  (created updated : DateTime) : Doc :=
  let '(sender, ticket_subject, ticket_message) := r in
  {| _id := new_ticket_id;
     ticket_id := new_ticket_id;
     sender := defaulted sender "Unknown Sender";
     subject := defaulted ticket_subject "No Subject";
     message := defaulted ticket_message "No Content";
     status := "open";
     created_at := VDate created;
     updated_at := VDate updated |}.

(** The first id in the words of the specification:
    [int(YYYYMMDD + "100000")], the year on four digits, month and day on
    two. *)
Definition spec_first_id (today : DateTime) : option Z :=
  Py.int (Py.zfill 4 (Py.str (year today))
          ++ Py.zfill 2 (Py.str (month today))
          ++ Py.zfill 2 (Py.str (day today))
          ++ "100000").

(** ** Vocabulary of the claims on message bodies *)

(** The test the loop of [parse_email] applies to a part. *)
Definition passes_loop_test (part : Message) : bool :=
  String.eqb (get_content_type part) "text/plain"
  && negb (Py.contains "attachment"
             (Py.str_opt (option_map raw (get part "Content-Disposition")))).

Definition is_space (c : ascii) : bool :=
  let n := N_of_ascii c in ((n =? 32) || ((9 <=? n) && (n <=? 13)))%N.

Fixpoint lstrip (s : string) : string :=
  match s with
  | EmptyString => ""
  | String c s' => if is_space c then lstrip s' else s
  end.

Fixpoint rstrip (s : string) : string :=
  match s with
  | EmptyString => ""
  | String c s' =>
      match rstrip s' with
      | EmptyString => if is_space c then "" else String c ""
      | r => String c r
      end
  end.

Fixpoint before_semicolon (s : string) : string :=
  match s with
  | EmptyString => ""
  | String c s' => if Ascii.eqb c ";" then "" else String c (before_semicolon s')
  end.

(** The disposition of a part: the value of its Content-Disposition header
    up to the first semicolon, without surrounding blanks, in lower case;
    [None] without the header. *)
Definition disposition (part : Message) : option string :=
  match get part "Content-Disposition" with
  | None => None
  | Some h => Some (Py.lower (rstrip (lstrip (before_semicolon (raw h)))))
  end.

(** A [text/plain] part whose disposition is not [attachment]. *)
Definition plain_not_attachment (part : Message) : bool :=
  String.eqb (get_content_type part) "text/plain"
  && negb match disposition part with
          | Some d => String.eqb d "attachment"
          | None => false
          end.

(** The payload of a part decoded as text ([.decode()], strict UTF-8). *)
Definition decoded_content (part : Message) : outcome (option pystr) :=
  match get_payload_decode part with
  | None => Raise AttributeError
  | Some b => if utf8_valid b then Ok (Some b) else Raise UnicodeDecodeError
  end.

(** The body of a message when parts are chosen by [test]: for a multipart,
    the content of the first part in [walk] order that passes, nothing when
    none passes; otherwise the content of the message itself. *)
Definition body_by (test : Message -> bool) (msg : Message)
  : outcome (option pystr) :=
  if is_multipart msg then
    match find test (walk msg) with
    | Some part => decoded_content part
    | None => Ok None
    end
  else decoded_content msg.

(** The subject [parse_email] reads: "No Subject" without a Subject header
    or with one whose value is an empty [str], else the first part
    [decode_header] yields, its octets decoded with the charset that part
    declares, with UTF-8 when it declares none. *)
Definition first_chunk_subject (env : Env) (msg : Message) : outcome pystr :=
  match get msg "Subject" with
  | None => Ok "No Subject"
  | Some h =>
      if Val.truthy (value_of h) then
        match decode_header h with
        | [] => Raise IndexError
        | (CStr s, _) :: _ => Ok s
        | (CBytes b, None) :: _ => bytes_decode env "utf-8" b
        | (CBytes b, Some charset) :: _ =>
            bytes_decode env (if Py.truthy charset then charset else "utf-8") b
        end
      else Ok "No Subject"
  end.

(** What [parse_email] returns once the subject is known to decode to
    [subject_result]: the sender as found, that subject, and [body]. *)
Definition parsed_with (msg : Message) (subject_result : outcome pystr)
  (body : outcome (option pystr)) : outcome Parsed :=
  match subject_result with
  | Raise e => Raise e
  | Ok ticket_subject =>
      match body with
      | Raise e => Raise e
      | Ok ticket_message =>
          Ok (option_map value_of (get msg "From"), Some ticket_subject,
              ticket_message)
      end
  end.

(** ** Sample worlds *)

Module Sample.

(** 3 November 2026, half past nine, [n] microseconds after the second. *)
Definition at_micro (n : N) : DateTime :=
  {| year := 2026; month := 11; day := 3;
     hour := 9; minute := 30; second := 0; microsecond := n |}.

(** A clock that advances by one microsecond between two reads. *)
Definition ticking (n : nat) : DateTime := at_micro (N.of_nat n).

Definition no_message : Message := Leaf [] "text/plain" "".

(** Nothing printed, stored or sent yet. *)
Definition start : World :=
  {| collection := []; clock_reads := 0; stdout := []; outbox := [] |}.

(** A mailbox with the unseen messages [ids], served by [fetch]. *)
Definition mailbox (ids : list bytes) (fetch : bytes -> string * Message)
  : Env :=
  {| clock := ticking;
     codecs := fun _ => None;
     login_ok := true;
     select_status := "OK";
     unseen := ids;
     fetch := fetch;
     recipient_name := Some "Support Desk";
     index_html := Some "<p>[CLIENT_NAME]: ticket [TICKET_NUMBER]</p>";
     smtp_ok := true |}.

Definition idle : Env := mailbox [] (fun _ => ("NO", no_message)).

(** A header without encoded words. *)
Definition plain_header (text : pystr) : Header :=
  {| raw := text; as_object := false; decode_header := [(CStr text, None)] |}.

(** The octets of a small e with acute accent in UTF-8. *)
Definition e_acute : string :=
  String (ascii_of_N 195) (String (ascii_of_N 169) "").

(** [Subject: Re: =?utf-8?b?w6k=?=], a reply to a message whose subject is
    that letter: [decode_header] yields the unencoded [Re: ] and then the
    decoded word. *)
Definition reply_subject : Header :=
  {| raw := "Re: =?utf-8?b?w6k=?=";
     as_object := false;
     decode_header := [(CBytes "Re: ", None); (CBytes e_acute, Some "utf-8")] |}.

Definition reply_message : Message :=
  Leaf [("From", plain_header "bob@example.com"); ("Subject", reply_subject)]
       "text/plain" "Thanks".

(** A multipart whose first text part is shown inline and carries a file
    name with the word attachment in it. *)
Definition inline_named_message : Message :=
  Multipart [("From", plain_header "carol@example.com");
             ("Subject", plain_header "Notes")]
    "multipart/mixed"
    [ Leaf [("Content-Type", plain_header "text/plain");
            ("Content-Disposition",
             plain_header "inline; filename=attachment.txt")]
        "text/plain" "first";
      Leaf [("Content-Type", plain_header "text/plain")]
        "text/plain" "second" ].

(** A message with a plain and an HTML alternative and no From header. *)
Definition anonymous_message : Message :=
  Multipart [("Subject", plain_header "Help")]
    "multipart/alternative"
    [ Leaf [] "text/html" "<p>It's broken</p>";
      Leaf [] "text/plain" "It's broken" ].

(** A multipart with nothing but HTML. *)
Definition html_only_message : Message :=
  Multipart [("From", plain_header "dave@example.com");
             ("Subject", plain_header "Newsletter")]
    "multipart/alternative"
    [ Leaf [] "text/html" "<p>Hello</p>" ].

(** A single-part message whose body is the Latin-1 octet of e acute. *)
Definition latin1_message : Message :=
  Leaf [("From", plain_header "erin@example.com");
        ("Subject", plain_header "Caf")]
       "text/plain" (String (ascii_of_N 233) "").

(** [Subject: =?utf-8?b?w6k=?=], one encoded word. *)
Definition encoded_subject : Header :=
  {| raw := "=?utf-8?b?w6k=?=";
     as_object := false;
     decode_header := [(CBytes e_acute, Some "utf-8")] |}.

Definition encoded_message : Message :=
  Leaf [("From", plain_header "frank@example.com");
        ("Subject", encoded_subject)]
       "text/plain" "Bonjour".

(** [Subject: =?x-nowhere?q?abc?=], a charset no codec answers to. *)
Definition strange_subject : Header :=
  {| raw := "=?x-nowhere?q?abc?=";
     as_object := false;
     decode_header := [(CBytes "abc", Some "x-nowhere")] |}.

Definition strange_message : Message :=
  Leaf [("From", plain_header "grace@example.com");
        ("Subject", strange_subject)]
       "text/plain" "Hi".


(** The mailbox of [mailbox] with a login that is refused. *)
Definition locked_out : Env :=
  {| clock := ticking;
     codecs := fun _ => None;
     login_ok := false;
     select_status := "OK";
     unseen := ["1"];
     fetch := fun _ => ("OK", no_message);
     recipient_name := Some "Support Desk";
     index_html := Some "<p>[CLIENT_NAME]: ticket [TICKET_NUMBER]</p>";
     smtp_ok := true |}.

(** Three rounds: two messages, a refused login, one more message. *)
Definition three_cycles : list Env :=
  [ mailbox ["1"; "2"]
      (fun i => if String.eqb i "1" then ("OK", reply_message)
                else ("NO", no_message));
    locked_out;
    mailbox ["3"] (fun _ => ("OK", anonymous_message)) ].

(** A store after one creation: the sentinel and its first ticket. *)
Definition seeded : World :=
  {| collection :=
       [sentinel_doc 20261103100000;
        ticket_doc 20261103100000 (None, None, None)
          (at_micro 0) (at_micro 0)];
     clock_reads := 5;
     stdout := [TicketCreated 20261103100000];
     outbox := [] |}.


(** A clock read around midnight on New Year's Eve: the first read still
    falls on 31 December 2026, the later ones on 1 January 2027. *)
Definition new_year (n : nat) : DateTime :=
  match n with
  | O => {| year := 2026; month := 12; day := 31;
            hour := 23; minute := 59; second := 59; microsecond := 999999 |}
  | S k => {| year := 2027; month := 1; day := 1;
              hour := 0; minute := 0; second := 0;
              microsecond := N.of_nat k |}
  end.

Definition at_midnight : Env :=
  {| clock := new_year;
     codecs := fun _ => None;
     login_ok := true;
     select_status := "OK";
     unseen := [];
     fetch := fun _ => ("NO", no_message);
     recipient_name := Some "Support Desk";
     index_html := Some "<p>[CLIENT_NAME]: ticket [TICKET_NUMBER]</p>";
     smtp_ok := true |}.

(** A clock whose fourth and fifth reads, the two of a first creation, lie
    one microsecond apart on either side of a millisecond. *)
Definition across_millisecond (n : nat) : DateTime :=
  at_micro (996 + N.of_nat n).

Definition at_boundary : Env :=
  {| clock := across_millisecond;
     codecs := fun _ => None;
     login_ok := true;
     select_status := "OK";
     unseen := [];
     fetch := fun _ => ("NO", no_message);
     recipient_name := Some "Support Desk";
     index_html := Some "<p>[CLIENT_NAME]: ticket [TICKET_NUMBER]</p>";
     smtp_ok := true |}.

(** The replacement character U+FFFD in UTF-8. *)
Definition replacement : string :=
  String (ascii_of_N 239) (String (ascii_of_N 191) (String (ascii_of_N 189) "")).

(** [From: Jos\xe9 <jose@example.com>] with the raw Latin-1 octet: the
    library hands it out as a [Header] object whose text has the
    replacement character, and which decodes to one part of charset
    [unknown-8bit]. *)
Definition raw_octet_from : Header :=
  {| raw := "Jos" ++ replacement ++ " <jose@example.com>";
     as_object := true;
     decode_header :=
       [(CBytes ("Jos" ++ String (ascii_of_N 233) " <jose@example.com>"),
         Some "unknown-8bit")] |}.

Definition raw_octet_message : Message :=
  Leaf [("From", raw_octet_from); ("Subject", plain_header "Hola")]
       "text/plain" "Buenos dias".

Definition three_requests : list Request :=
  [ (Some "alice@example.com", Some "Help", Some "It's broken");
    (None, None, None);
    (Some "bob@example.com", Some "", Some "") ].

End Sample.

(** ** The poll loop and the vocabulary of its invariants *)

(** The first rounds of the loop of [run_system], one per element of
    [cycles]: every round runs [process_emails] against the mailbox and the
    services as they are in that round, and the world carries over.  An
    exception leaves the loop; [time.sleep] changes nothing. *)
Fixpoint run_system (cycles : list Env) : M unit :=
  match cycles with
  | [] => ret tt
  | env :: later => process_emails env ;; run_system later
  end.

(** The sentinel a creation puts in front of its ticket on an empty
    collection. *)
Definition seed_if_empty (ds : list Doc) (id : Z) : list Doc :=
  match ds with
  | [] => [sentinel_doc id]
  | _ :: _ => []
  end.

(** The sentinel in front of the tickets [added] to the collection [ds]:
    there is one when [ds] was empty and a ticket was added, and it carries
    the id of the first of them. *)
Definition seed_for (ds added : list Doc) : list Doc :=
  match added with
  | [] => []
  | t :: _ => seed_if_empty ds (_id t)
  end.

(** The number of clock reads made when [create_ticket] comes to read the
    clock for [created_at]: generating the id has read it three times on
    an empty collection and not at all otherwise. *)
Definition reads_before_ticket (w : World) : nat :=
  match collection w with
  | [] => S (S (S (clock_reads w)))
  | _ :: _ => clock_reads w
  end.

(** [w'] has everything [w] has, in place: documents, printed lines and
    sent mails are only added at the end, and the clock is not read
    backwards. *)
Definition extends (w w' : World) : Prop :=
  (exists ds, collection w' = collection w ++ ds)%list /\
  (exists ls, stdout w' = stdout w ++ ls)%list /\
  (exists ms, outbox w' = outbox w ++ ms)%list /\
  (clock_reads w <= clock_reads w')%nat.

(** The shape of a store the program has built: empty, or the sentinel
    followed by tickets (none yet, when the first insert failed) whose ids
    are strictly increasing, never the sentinel's, and equal to the
    [ticket_id] field. *)
Definition store_ok (ds : list Doc) : Prop :=
  ds = [] \/
  exists first tickets,
    ds = sentinel_doc first :: tickets /\
    StronglySorted Z.lt (map _id tickets) /\
    Forall (fun t => ticket_id t = _id t /\ _id t <> sentinel_id) tickets.

(** What [parse_email] returns for a message id, whatever the world: three
    [None] after a failed fetch, else the parsed fields. *)
Definition parse_outcome (env : Env) (email_id : bytes) : outcome Parsed :=
  let '(status, msg) := fetch env email_id in
  if String.eqb status "OK"
  then parsed_with msg (first_chunk_subject env msg)
         (body_by passes_loop_test msg)
  else Ok (None, None, None).

(** [t] is the ticket of the message [email_id] with the timestamps
    [created] and [updated]: the message parses, its sender is text or
    missing, and [t] holds its three fields, defaults applied, with status
    "open", [ticket_id] equal to [_id], and these two timestamps. *)
Definition ticket_of (env : Env) (email_id : bytes)
  (created updated : DateTime) (t : Doc) : Prop :=
  exists r : Request,
    parse_outcome env email_id = Ok (as_parsed r) /\
    t = ticket_doc (_id t) r created updated.

(** [added] holds the tickets of the messages [email_ids], one each and in
    the same order, when the clock has been read [k] times before the
    first of them is stamped: every ticket takes two reads, [created_at]
    first, each cut to the millisecond. *)
Fixpoint tickets_from (env : Env) (k : nat) (email_ids : list bytes)
  (added : list Doc) : Prop :=
  match email_ids, added with
  | [], [] => True
  | email_id :: later, t :: ts =>
      ticket_of env email_id (to_millis (clock env k))
        (to_millis (clock env (S k))) t /\
      tickets_from env (S (S k)) later ts
  | _, _ => False
  end.

(** What a computation of the program does to any world: it only adds,
    and it keeps the store well shaped. *)
Definition steady {A} (m : M A) : Prop :=
  forall w,
    extends w (snd (m w)) /\
    (store_ok (collection w) -> store_ok (collection (snd (m w)))).

(** The ids [first], [first + 1], ... handed to [n] creations. *)
Definition consecutive (first : Z) (n : nat) : list Z :=
  map (fun k => first + Z.of_nat k) (seq 0 n).

(** * Properties *)

(** ** Decimal printing and reading *)

Module PyFacts.
Import Py.

Lemma int_acc_app (s1 s2 : string) (a : Z) :
  int_acc (s1 ++ s2) a =
  match int_acc s1 a with
  | Some v => int_acc s2 v
  | None => None
  end.
Proof.
  revert a; induction s1 as [|c s1 IH]; intros a; simpl.
  - reflexivity.
  - destruct (digit_of_ascii c); [apply IH | reflexivity].
Qed.

Lemma digit_roundtrip (d : N) :
  (d < 10)%N -> digit_of_ascii (ascii_of_digit d) = Some (Z.of_N d).
Proof.
  intros H.
  assert (E : In d [0; 1; 2; 3; 4; 5; 6; 7; 8; 9]%N).
  { simpl. lia. }
  simpl in E.
  repeat (destruct E as [E|E]; [subst d; reflexivity|]).
  contradiction.
Qed.

(** With fuel to spare, the digits do not depend on the fuel. *)
Lemma str_digits_fuel (f1 f2 : nat) (n : N) (acc : string) :
  (n < 2 ^ N.of_nat f1)%N -> (n < 2 ^ N.of_nat f2)%N ->
  (0 < f1)%nat -> (0 < f2)%nat ->
  str_digits f1 n acc = str_digits f2 n acc.
Proof.
  revert f2 n acc.
  induction f1 as [|f1 IH]; intros f2 n acc H1 H2 P1 P2; [lia|].
  destruct f2 as [|f2]; [lia|].
  simpl.
  destruct (N.eqb_spec (n / 10) 0) as [E|E]; [reflexivity|].
  assert (L : (10 <= n)%N).
  { destruct (N.lt_ge_cases n 10) as [G|G]; [|exact G].
    apply N.div_small in G. contradiction. }
  assert (D : forall f, (n < 2 ^ N.of_nat (S f))%N ->
                        (n / 10 < 2 ^ N.of_nat f)%N /\ (0 < f)%nat).
  { intros f Hf.
    rewrite Nat2N.inj_succ, N.pow_succ_r' in Hf.
    split.
    - apply N.Div0.div_lt_upper_bound. lia.
    - destruct f; [simpl in Hf; lia | lia]. }
  destruct (D f1 H1), (D f2 H2).
  apply IH; assumption.
Qed.

Lemma append_assoc (s1 s2 s3 : string) : (s1 ++ s2) ++ s3 = s1 ++ (s2 ++ s3).
Proof.
  induction s1 as [|c s1 IH]; simpl; [reflexivity | now rewrite IH].
Qed.

Lemma str_digits_acc (f : nat) (n : N) (acc : string) :
  str_digits f n acc = str_digits f n "" ++ acc.
Proof.
  revert n acc; induction f as [|f IH]; intros n acc; simpl.
  - reflexivity.
  - destruct (n / 10 =? 0)%N.
    + reflexivity.
    + rewrite IH. rewrite (IH _ (String _ "")).
      rewrite append_assoc. reflexivity.
Qed.

Lemma log2_fuel (n : N) : (n < 2 ^ N.of_nat (S (N.to_nat (N.log2 n))))%N.
Proof.
  rewrite Nat2N.inj_succ, N2Nat.id.
  destruct n as [|p]; [reflexivity|].
  apply N.log2_spec. reflexivity.
Qed.

(** The two equations of decimal printing. *)
Lemma str_small (n : N) :
  (n < 10)%N -> str n = String (ascii_of_digit n) "".
Proof.
  intros H. unfold str. simpl.
  rewrite (N.div_small n 10 H), (N.mod_small n 10 H). reflexivity.
Qed.

Lemma str_step (n : N) :
  (10 <= n)%N ->
  str n = str (n / 10) ++ String (ascii_of_digit (n mod 10)) "".
Proof.
  intros H. unfold str at 1. simpl.
  destruct (N.eqb_spec (n / 10) 0) as [E|E].
  - apply N.div_small_iff in E; lia.
  - rewrite str_digits_acc. f_equal.
    unfold str.
    assert (P : (0 < N.to_nat (N.log2 n))%nat).
    { assert (N.log2 8 <= N.log2 n)%N by (apply N.log2_le_mono; lia).
      change (N.log2 8) with 3%N in *. lia. }
    apply str_digits_fuel; try lia.
    + pose proof (log2_fuel n) as L.
      rewrite Nat2N.inj_succ, N.pow_succ_r' in L.
      apply N.Div0.div_lt_upper_bound. lia.
    + apply log2_fuel.
Qed.

Lemma length_app (s1 s2 : string) :
  String.length (s1 ++ s2) = (String.length s1 + String.length s2)%nat.
Proof.
  induction s1 as [|c s1 IH]; simpl; [reflexivity | now rewrite IH].
Qed.

Lemma reads_as_app (s1 s2 : string) (v1 v2 : Z) :
  reads_as s1 v1 -> reads_as s2 v2 ->
  reads_as (s1 ++ s2) (v1 * 10 ^ Z.of_nat (String.length s2) + v2).
Proof.
  intros H1 H2 a.
  rewrite int_acc_app, H1, H2, length_app, Nat2Z.inj_add, Z.pow_add_r by lia.
  f_equal. ring.
Qed.

Lemma reads_as_digit (d : N) :
  (d < 10)%N -> reads_as (String (ascii_of_digit d) "") (Z.of_N d).
Proof.
  intros H a. cbn [int_acc String.length]. rewrite (digit_roundtrip d H).
  f_equal. change (10 ^ Z.of_nat 1) with 10. ring.
Qed.

Lemma reads_as_str (n : N) : reads_as (str n) (Z.of_N n).
Proof.
  induction n as [n IH] using (well_founded_induction N.lt_wf_0).
  destruct (N.lt_ge_cases n 10) as [H|H].
  - rewrite (str_small n H). apply reads_as_digit, H.
  - rewrite (str_step n H).
    assert (L : (n / 10 < n)%N) by (apply N.div_lt; lia).
    assert (D : (n mod 10 < 10)%N) by (apply N.mod_lt; lia).
    pose proof (reads_as_app _ _ _ _ (IH _ L) (reads_as_digit _ D)) as R.
    simpl String.length in R.
    replace (Z.of_N n)
      with (Z.of_N (n / 10) * 10 ^ Z.of_nat 1 + Z.of_N (n mod 10)).
    + exact R.
    + rewrite (N.div_mod n 10) at 3 by lia.
      rewrite N2Z.inj_add, N2Z.inj_mul. change (10 ^ Z.of_nat 1) with 10.
      change (Z.of_N 10) with 10. ring.
Qed.

Lemma str_nonempty (n : N) : str n <> "".
Proof.
  destruct (N.lt_ge_cases n 10) as [H|H].
  - rewrite (str_small n H). discriminate.
  - rewrite (str_step n H). destruct (str (n / 10)); discriminate.
Qed.

(** Reading back what [str] printed. *)
Lemma int_str (n : N) : int (str n) = Some (Z.of_N n).
Proof.
  unfold int. pose proof (str_nonempty n) as NE.
  destruct (str n) eqn:E; [contradiction|].
  rewrite <- E, (reads_as_str n). reflexivity.
Qed.

Lemma reads_as_zeros (k : nat) : reads_as (zeros k) 0.
Proof.
  induction k as [|k IH]; intros a.
  - simpl. f_equal. lia.
  - cbn [zeros int_acc String.length].
    change (digit_of_ascii "0") with (Some 0).
    rewrite IH, Nat2Z.inj_succ, Z.pow_succ_r by lia.
    f_equal. ring.
Qed.

Lemma reads_as_zfill (w : nat) (n : N) : reads_as (zfill w (str n)) (Z.of_N n).
Proof.
  unfold zfill.
  pose proof (reads_as_app _ _ _ _
                (reads_as_zeros (w - String.length (str n)))
                (reads_as_str n)) as R.
  simpl in R. exact R.
Qed.

Lemma str_length_1 (n : N) : (n < 10)%N -> String.length (str n) = 1%nat.
Proof. intros H. now rewrite (str_small n H). Qed.

Lemma str_length_2 (n : N) :
  (10 <= n < 100)%N -> String.length (str n) = 2%nat.
Proof.
  intros [H1 H2]. rewrite (str_step n H1), length_app, str_length_1.
  - reflexivity.
  - apply N.Div0.div_lt_upper_bound. lia.
Qed.

Lemma zfill2_length (n : N) :
  (n < 100)%N -> String.length (zfill 2 (str n)) = 2%nat.
Proof.
  intros H. unfold zfill. rewrite length_app.
  destruct (N.lt_ge_cases n 10) as [L|L].
  - rewrite (str_length_1 n L). reflexivity.
  - rewrite str_length_2 by lia. reflexivity.
Qed.

Lemma reads_as_nonempty_int (s : string) (v : Z) :
  reads_as s v -> s <> "" -> int s = Some v.
Proof.
  intros R NE. unfold int. destruct s; [contradiction|].
  rewrite R. reflexivity.
Qed.

End PyFacts.

(** ** The id a date seeds *)

Section InitialId.
Import Py PyFacts.

(** Whatever the clock says, the first id is a number ending in [100000]. *)
Lemma initial_ticket_id_shape (y m : N) (dt : DateTime) :
  exists p, 0 <= p /\
    initial_ticket_id y m (strftime_d dt) 100000 = Some (p * 1000000 + 100000).
Proof.
  unfold initial_ticket_id, strftime_d.
  pose proof (reads_as_app _ _ _ _ (reads_as_zfill 2 (day dt))
                (reads_as_str 100000)) as R1.
  pose proof (reads_as_app _ _ _ _ (reads_as_zfill 2 m) R1) as R2.
  pose proof (reads_as_app _ _ _ _ (reads_as_str y) R2) as R3.
  change (String.length (str 100000)) with 6%nat in *.
  change (Z.of_N 100000) with 100000 in *.
  change (10 ^ Z.of_nat 6) with 1000000 in *.
  set (a := String.length (zfill 2 (str (day dt)) ++ str 100000)) in *.
  set (b := String.length (zfill 2 (str m) ++ zfill 2 (str (day dt))
                             ++ str 100000)) in *.
  assert (Ha : a = (String.length (zfill 2 (str (day dt))) + 6)%nat).
  { unfold a. now rewrite length_app. }
  assert (Hb : b = (String.length (zfill 2 (str m)) + a)%nat).
  { unfold b. now rewrite length_app. }
  set (ld := String.length (zfill 2 (str (day dt)))) in *.
  set (lm := String.length (zfill 2 (str m))) in *.
  exists ((Z.of_N y * 10 ^ Z.of_nat lm + Z.of_N m) * 10 ^ Z.of_nat ld
          + Z.of_N (day dt)).
  split.
  - assert (0 <= 10 ^ Z.of_nat lm) by (apply Z.pow_nonneg; lia).
    assert (0 <= 10 ^ Z.of_nat ld) by (apply Z.pow_nonneg; lia).
    nia.
  - rewrite (reads_as_nonempty_int _ _ R3).
    + f_equal. rewrite Hb, Ha.
      rewrite !Nat2Z.inj_add, !Z.pow_add_r by lia.
      change (10 ^ Z.of_nat 6) with 1000000. ring.
    + pose proof (str_nonempty y). destruct (str y); [contradiction|].
      discriminate.
Qed.

(** For a month and a day of at most two digits it is [YYYYMMDD100000]. *)
Lemma initial_ticket_id_value (y m : N) (dt : DateTime) :
  (m < 100)%N -> (day dt < 100)%N ->
  initial_ticket_id y m (strftime_d dt) 100000 = Some (date_seed y m (day dt)).
Proof.
  intros Hm Hd.
  unfold initial_ticket_id, strftime_d, date_seed.
  pose proof (reads_as_app _ _ _ _ (reads_as_zfill 2 (day dt))
                (reads_as_str 100000)) as R1.
  pose proof (reads_as_app _ _ _ _ (reads_as_zfill 2 m) R1) as R2.
  pose proof (reads_as_app _ _ _ _ (reads_as_str y) R2) as R3.
  rewrite !length_app, !zfill2_length in R3 by assumption.
  rewrite (reads_as_nonempty_int _ _ R3).
  - f_equal.
    change (String.length (str 100000)) with 6%nat.
    change (Z.of_N 100000) with 100000.
    change (10 ^ Z.of_nat 6) with 1000000.
    change (10 ^ Z.of_nat (2 + 6)) with 100000000.
    change (10 ^ Z.of_nat (2 + (2 + 6))) with 10000000000.
    ring.
  - pose proof (str_nonempty y). destruct (str y); [contradiction|].
    discriminate.
Qed.

(** The specification's spelling of the first id names the same number. *)
Lemma spec_first_id_value (today : DateTime) :
  (month today < 100)%N -> (day today < 100)%N ->
  spec_first_id today =
    Some (date_seed (year today) (month today) (day today)).
Proof.
  intros Hm Hd. unfold spec_first_id, date_seed.
  change "100000" with (str 100000).
  pose proof (reads_as_app _ _ _ _ (reads_as_zfill 2 (day today))
                (reads_as_str 100000)) as R1.
  pose proof (reads_as_app _ _ _ _ (reads_as_zfill 2 (month today)) R1) as R2.
  pose proof (reads_as_app _ _ _ _ (reads_as_zfill 4 (year today)) R2) as R3.
  rewrite !length_app, !zfill2_length in R3 by assumption.
  rewrite (reads_as_nonempty_int _ _ R3).
  - f_equal.
    change (String.length (str 100000)) with 6%nat.
    change (Z.of_N 100000) with 100000.
    change (10 ^ Z.of_nat 6) with 1000000.
    change (10 ^ Z.of_nat (2 + 6)) with 100000000.
    change (10 ^ Z.of_nat (2 + (2 + 6))) with 10000000000.
    ring.
  - unfold zfill at 1.
    pose proof (str_nonempty (year today)).
    destruct (zeros (4 - String.length (str (year today)))); cbn [append].
    + destruct (str (year today)); [contradiction | discriminate].
    + discriminate.
Qed.

Lemma date_seed_above_sentinel (y m d : N) :
  (1000 <= y)%N -> sentinel_id < date_seed y m d.
Proof. unfold sentinel_id, date_seed. lia. Qed.

End InitialId.

(** ** The collection *)

Section Store.

Lemma max_by_id_in (d : Doc) (ds : list Doc) : In (max_by_id d ds) (d :: ds).
Proof.
  revert d; induction ds as [|x ds IH]; intros d; simpl.
  - now left.
  - destruct (IH (if _id d <? _id x then x else d)) as [E|E].
    + destruct (_id d <? _id x); rewrite <- E; auto.
    + auto.
Qed.

Lemma max_by_id_start (d : Doc) (ds : list Doc) :
  _id d <= _id (max_by_id d ds).
Proof.
  revert d; induction ds as [|y ds IH]; intros d; simpl.
  - lia.
  - specialize (IH (if _id d <? _id y then y else d)).
    destruct (Z.ltb_spec (_id d) (_id y)); lia.
Qed.

Lemma max_by_id_ge (d : Doc) (ds : list Doc) (x : Doc) :
  In x (d :: ds) -> _id x <= _id (max_by_id d ds).
Proof.
  revert d; induction ds as [|y ds IH]; intros d H.
  - destruct H as [<-|[]]. simpl. lia.
  - cbn [max_by_id].
    pose proof (max_by_id_start (if _id d <? _id y then y else d) ds) as P.
    destruct H as [<-|[<-|H]].
    + destruct (Z.ltb_spec (_id d) (_id y)); lia.
    + destruct (Z.ltb_spec (_id d) (_id y)); lia.
    + apply IH. now right.
Qed.

Lemma max_by_id_is_max (d : Doc) (ds : list Doc) :
  is_max_id (d :: ds) (_id (max_by_id d ds)).
Proof.
  split.
  - exists (max_by_id d ds). split; [apply max_by_id_in | reflexivity].
  - intros x. apply max_by_id_ge.
Qed.

Lemma is_max_id_unique (ds : list Doc) (m1 m2 : Z) :
  is_max_id ds m1 -> is_max_id ds m2 -> m1 = m2.
Proof.
  intros [[d1 [I1 E1]] U1] [[d2 [I2 E2]] U2].
  apply U2 in I1. apply U1 in I2. lia.
Qed.

Lemma has_id_above (ds : list Doc) (m k : Z) :
  (forall d, In d ds -> _id d <= m) -> m < k -> has_id k ds = false.
Proof.
  intros U L. unfold has_id.
  destruct (existsb (fun d => _id d =? k) ds) eqn:E; [|reflexivity].
  apply existsb_exists in E. destruct E as [d [I E]].
  apply U in I. lia.
Qed.

End Store.

(** ** Ticket ids *)

Section Generator.

Variable env : Env.

(** On a non-empty collection nothing is written and the id is the
    greatest [_id] plus one. *)
Lemma generate_nonempty (w : World) (m : Z) :
  is_max_id (collection w) m ->
  generate_ticket_id env w = (Ok (m + 1), w).
Proof.
  intros Hm. unfold generate_ticket_id, bind, find_one, find_one_sort_id_desc.
  destruct (collection w) as [|d ds] eqn:E.
  - destruct Hm as [[x [[] _]] _].
  - simpl. rewrite E. unfold ret.
    rewrite (is_max_id_unique _ _ _ Hm (max_by_id_is_max d ds)).
    reflexivity.
Qed.

(** On an empty collection the clock is read three times, the sentinel is
    stored and the id the reads spell is returned; it ends in [100000]. *)
Lemma generate_empty (w : World) :
  collection w = [] ->
  exists p,
    0 <= p /\
    initial_ticket_id (year (clock env (clock_reads w)))
                      (month (clock env (S (clock_reads w))))
                      (strftime_d (clock env (S (S (clock_reads w)))))
                      100000 = Some (p * 1000000 + 100000) /\
    generate_ticket_id env w =
      (Ok (p * 1000000 + 100000),
       {| collection := [sentinel_doc (p * 1000000 + 100000)];
          clock_reads := S (S (S (clock_reads w)));
          stdout := stdout w;
          outbox := outbox w |}).
Proof.
  intros E.
  destruct (initial_ticket_id_shape
              (year (clock env (clock_reads w)))
              (month (clock env (S (clock_reads w))))
              (clock env (S (S (clock_reads w))))) as [p [Hp Hi]].
  exists p. split; [exact Hp|]. split; [exact Hi|].
  unfold generate_ticket_id, bind, find_one, now. rewrite E. simpl.
  rewrite Hi. unfold insert_one, ret. simpl. rewrite E. reflexivity.
Qed.

(** [create_ticket] always succeeds: the id it asks for is not in use. *)
Lemma create_ticket_run (w : World) (r : Request) :
  exists id pre k,
    generate_ticket_id env w =
      (Ok id, {| collection := pre; clock_reads := k;
                 stdout := stdout w; outbox := outbox w |}) /\
    has_id id pre = false /\
    (let '(sender, ticket_subject, ticket_message) := r in
     create_ticket env (option_map Str sender) ticket_subject
       ticket_message w) =
      (Ok id,
       {| collection :=
            pre ++ [ticket_doc id r (to_millis (clock env k))
                      (to_millis (clock env (S k)))];
          clock_reads := S (S k);
          stdout := stdout w ++ [TicketCreated id];
          outbox := outbox w |}).
Proof.
  destruct r as [[s subj] body].
  assert (G : exists id pre k,
             generate_ticket_id env w =
               (Ok id, {| collection := pre; clock_reads := k;
                          stdout := stdout w; outbox := outbox w |}) /\
             has_id id pre = false).
  { destruct (collection w) as [|d ds] eqn:E.
    - destruct (generate_empty w E) as [p [Hp [_ Hg]]].
      eexists _, _, _. split; [exact Hg|].
      unfold has_id. cbn [existsb]. rewrite orb_false_r.
      apply Z.eqb_neq. unfold sentinel_doc, sentinel_id. cbn [_id]. lia.
    - pose proof (max_by_id_is_max d ds) as Hm. rewrite <- E in Hm.
      exists (_id (max_by_id d ds) + 1), (collection w), (clock_reads w).
      split.
      + rewrite (generate_nonempty w _ Hm). destruct w; reflexivity.
      + apply (has_id_above _ (_id (max_by_id d ds))); [apply Hm | lia]. }
  destruct G as [id [pre [k [Hg Hn]]]].
  exists id, pre, k. split; [exact Hg|]. split; [exact Hn|].
  unfold create_ticket, bind. rewrite Hg.
  unfold now, insert_one, print, ret.
  destruct s as [[|? ?]|], subj as [[|? ?]|], body as [[|? ?]|];
    simpl; rewrite Hn; reflexivity.
Qed.

(** With a [Header] object as sender the id is generated and the clock is
    read twice, on an empty collection the sentinel is stored, and then
    the insert of the ticket fails: [InvalidDocument], no ticket. *)
Lemma create_ticket_object (w : World) (h : Header)
  (ticket_subject ticket_message : option pystr) :
  exists id pre k,
    generate_ticket_id env w =
      (Ok id, {| collection := pre; clock_reads := k;
                 stdout := stdout w; outbox := outbox w |}) /\
    create_ticket env (Some (Obj h)) ticket_subject ticket_message w =
      (Raise InvalidDocument,
       {| collection := pre; clock_reads := S (S k);
          stdout := stdout w; outbox := outbox w |}).
Proof.
  destruct (create_ticket_run w (None, None, None))
    as [id [pre [k [Hg _]]]].
  exists id, pre, k. split; [exact Hg|].
  unfold create_ticket, bind. rewrite Hg. reflexivity.
Qed.

End Generator.

Section Creation.

Local Open Scope list_scope.

Variable env : Env.

Lemma create_ticket_nonempty (w : World) (r : Request) (m : Z) :
  is_max_id (collection w) m ->
  exists w' t,
    (let '(sender, ticket_subject, ticket_message) := r in
     create_ticket env (option_map Str sender) ticket_subject
       ticket_message w)
      = (Ok (m + 1), w') /\
    collection w' = collection w ++ [t] /\
    _id t = m + 1 /\ ticket_id t = m + 1 /\
    is_max_id (collection w') (m + 1).
Proof.
  intros Hm.
  destruct (create_ticket_run env w r) as [id [pre [k [Hg [_ Hc]]]]].
  rewrite (generate_nonempty env w m Hm) in Hg.
  injection Hg as <- Hw.
  eexists _, _. split; [exact Hc|].
  assert (Ep : pre = collection w) by (rewrite Hw; reflexivity).
  subst pre.
  assert (Ei : forall a b, _id (ticket_doc (m + 1) r a b) = m + 1).
  { intros a b. destruct r as [[? ?] ?]. reflexivity. }
  assert (Et : forall a b, ticket_id (ticket_doc (m + 1) r a b) = m + 1).
  { intros a b. destruct r as [[? ?] ?]. reflexivity. }
  cbn [collection]. repeat split; try apply Ei; try apply Et.
  - eexists. split; [apply in_or_app; right; left; reflexivity | apply Ei].
  - intros d I. apply in_app_or in I. destruct I as [I|[<-|[]]].
    + apply Hm in I. lia.
    + rewrite Ei. lia.
Qed.

Lemma create_ticket_empty (w : World) (r : Request) :
  collection w = [] ->
  exists id w' t,
    (let '(sender, ticket_subject, ticket_message) := r in
     create_ticket env (option_map Str sender) ticket_subject
       ticket_message w)
      = (Ok id, w') /\
    collection w' = [sentinel_doc id; t] /\
    _id t = id /\ ticket_id t = id /\
    id <> sentinel_id /\
    is_max_id (collection w') (Z.max sentinel_id id).
Proof.
  intros E.
  destruct (create_ticket_run env w r) as [id [pre [k [Hg [_ Hc]]]]].
  destruct (generate_empty env w E) as [p [Hp [_ Hg']]].
  rewrite Hg' in Hg. injection Hg as <- <- _.
  set (id := p * 1000000 + 100000) in *.
  eexists id, _, _. split; [exact Hc|].
  assert (Ei : forall a b, _id (ticket_doc id r a b) = id).
  { intros a b. destruct r as [[? ?] ?]. reflexivity. }
  assert (Et : forall a b, ticket_id (ticket_doc id r a b) = id).
  { intros a b. destruct r as [[? ?] ?]. reflexivity. }
  cbn [collection app]. repeat split; try apply Ei; try apply Et.
  - unfold sentinel_id, id. lia.
  - destruct (Z.max_spec sentinel_id id) as [[_ ->]|[_ ->]].
    + eexists. split; [right; left; reflexivity | apply Ei].
    + eexists. split; [left; reflexivity | reflexivity].
  - intros d [<-|[<-|[]]].
    + cbn [_id sentinel_doc]. lia.
    + rewrite Ei. lia.
Qed.

(** A run of creations on a non-empty collection appends one ticket per
    request; the ids go up by one from the greatest id present. *)
Lemma create_all_nonempty (reqs : list Request) (w : World) (m : Z) :
  is_max_id (collection w) m ->
  exists ids w' tickets,
    create_all env reqs w = (Ok ids, w') /\
    List.length ids = List.length reqs /\
    collection w' = collection w ++ tickets /\
    map _id tickets = ids /\
    Forall (fun t => ticket_id t = _id t) tickets /\
    Forall (fun i => m < i) ids /\
    StronglySorted Z.lt ids.
Proof.
  revert w m. induction reqs as [|r reqs IH]; intros w m Hm.
  - exists [], w, []. cbn. rewrite app_nil_r. repeat split; constructor.
  - destruct (create_ticket_nonempty w r m Hm)
      as [w1 [t [Hc [Hs [Hi [Ht Hm1]]]]]].
    destruct (IH w1 (m + 1) Hm1)
      as [ids [w2 [ts [Ha [Hlen [Hs2 [Hmap [Hf [Hl Hso]]]]]]]]].
    exists ((m + 1) :: ids), w2, (t :: ts).
    split.
    { cbn [create_all]. destruct r as [[s subj] body].
      unfold bind. rewrite Hc. unfold bind in Ha |- *. rewrite Ha.
      reflexivity. }
    split.
    { cbn [List.length]. now rewrite Hlen. }
    split.
    { rewrite Hs2, Hs, <- app_assoc. reflexivity. }
    split.
    { cbn [map]. now rewrite Hi, Hmap. }
    split.
    { constructor; [congruence | exact Hf]. }
    split.
    { constructor; [lia|].
      eapply Forall_impl; [|exact Hl]. cbn. intros; lia. }
    constructor; [exact Hso | exact Hl].
Qed.

(** The same run started on an empty collection: the sentinel comes first,
    then one ticket per request. *)
Lemma create_all_empty (r : Request) (reqs : list Request) (w : World) :
  collection w = [] ->
  exists first ids w' tickets,
    create_all env (r :: reqs) w = (Ok (first :: ids), w') /\
    List.length ids = List.length reqs /\
    collection w' = sentinel_doc first :: tickets /\
    map _id tickets = first :: ids /\
    Forall (fun t => ticket_id t = _id t) tickets /\
    first <> sentinel_id /\
    StronglySorted Z.lt (first :: ids).
Proof.
  intros E.
  destruct (create_ticket_empty w r E)
    as [id [w1 [t [Hc [Hs [Hi [Ht [Hne Hm]]]]]]]].
  destruct (create_all_nonempty reqs w1 _ Hm)
    as [ids [w2 [ts [Ha [Hlen [Hs2 [Hmap [Hf [Hl Hso]]]]]]]]].
  exists id, ids, w2, (t :: ts).
  split.
  { cbn [create_all]. destruct r as [[s subj] body].
    unfold bind. rewrite Hc. unfold bind in Ha |- *. rewrite Ha.
    reflexivity. }
  split; [exact Hlen|].
  split.
  { rewrite Hs2, Hs. reflexivity. }
  split.
  { cbn [map]. now rewrite Hi, Hmap. }
  split.
  { constructor; [congruence | exact Hf]. }
  split; [exact Hne|].
  constructor; [exact Hso|].
  eapply Forall_impl; [|exact Hl]. cbn. intros; lia.
Qed.

End Creation.

(** ** Claims about ticket ids and stored tickets *)

Section TicketClaims.

Local Open Scope list_scope.

(** C1.  Started on an empty store, any sequence of ticket creations
    succeeds and the ids handed out are strictly increasing; and on every
    non-empty store [generate_ticket_id] returns the greatest id present
    plus one without writing anything. *)
Theorem ids_strictly_increasing (env : Env) (reqs : list Request) (w : World) :
  collection w = [] ->
  exists ids w',
    create_all env reqs w = (Ok ids, w') /\
    List.length ids = List.length reqs /\
    StronglySorted Z.lt ids /\
    (forall w1 m, is_max_id (collection w1) m ->
                  generate_ticket_id env w1 = (Ok (m + 1), w1)).
Proof.
  intros E. destruct reqs as [|r reqs].
  - exists [], w. repeat split; try constructor.
    intros w1 m. apply generate_nonempty.
  - destruct (create_all_empty env r reqs w E)
      as [first [ids [w' [ts [Ha [Hlen [_ [_ [_ [_ Hso]]]]]]]]]].
    exists (first :: ids), w'. split; [exact Ha|]. split.
    + cbn [List.length]. now rewrite Hlen.
    + split; [exact Hso|]. intros w1 m. apply generate_nonempty.
Qed.

Lemma ids_strictly_increasing_witness :
  exists ids w',
    create_all Sample.idle Sample.three_requests Sample.start = (Ok ids, w') /\
    List.length ids = List.length Sample.three_requests /\
    StronglySorted Z.lt ids /\
    (forall w1 m, is_max_id (collection w1) m ->
                  generate_ticket_id Sample.idle w1 = (Ok (m + 1), w1)).
Proof.
  apply (ids_strictly_increasing Sample.idle Sample.three_requests
           Sample.start).
  reflexivity.
Defined.

(** When the three clock reads of a call on an empty store fall on one
    date [today], [generate_ticket_id] stores the sentinel, whose [_id] is
    10000000000000, and returns [int(YYYYMMDD + "100000")] for that date,
    month and day on two digits. *)
Theorem generate_seeds_empty_store (env : Env) (w : World) (today : DateTime) :
  collection w = [] ->
  valid_date today ->
  same_date (clock env (clock_reads w)) today ->
  same_date (clock env (S (clock_reads w))) today ->
  same_date (clock env (S (S (clock_reads w)))) today ->
  exists id w',
    generate_ticket_id env w = (Ok id, w') /\
    spec_first_id today = Some id /\
    id = date_seed (year today) (month today) (day today) /\
    collection w' = [sentinel_doc id] /\
    _id (sentinel_doc id) = 10000000000000 /\
    stdout w' = stdout w /\ outbox w' = outbox w.
Proof.
  intros E [Vy [Vm Vd]] [Y1 _] [_ [M2 _]] [_ [_ D3]].
  destruct (generate_empty env w E) as [p [_ [Hi Hg]]].
  rewrite initial_ticket_id_value in Hi by lia.
  rewrite Y1, M2, D3 in Hi. injection Hi as Hi.
  exists (p * 1000000 + 100000). eexists. split; [exact Hg|].
  rewrite <- Hi. split.
  - apply spec_first_id_value; lia.
  - repeat split.
Qed.

Lemma generate_seeds_empty_store_witness :
  exists id w',
    generate_ticket_id Sample.idle Sample.start = (Ok id, w') /\
    spec_first_id (Sample.at_micro 0) = Some id /\
    id = date_seed 2026 11 3 /\
    collection w' = [sentinel_doc id] /\
    _id (sentinel_doc id) = 10000000000000 /\
    stdout w' = [] /\ outbox w' = [].
Proof.
  apply (generate_seeds_empty_store Sample.idle Sample.start
           (Sample.at_micro 0)).
  - reflexivity.
  - unfold valid_date; simpl; lia.
  - repeat split.
  - repeat split.
  - repeat split.
Defined.

(** C2 at a failing input.  The store is empty and the call runs across
    midnight on New Year's Eve: the year is read on 31 December 2026, the
    month and the day on 1 January 2027.  The sentinel is stored, but the
    id returned, 20260101100000, is [int(YYYYMMDD + "100000")] neither for
    the date of the first read nor for the date of the two others. *)
Theorem seed_across_midnight :
  generate_ticket_id Sample.at_midnight Sample.start
  = (Ok 20260101100000,
     {| collection := [sentinel_doc 20260101100000];
        clock_reads := 3; stdout := []; outbox := [] |}) /\
  spec_first_id (Sample.new_year 0) = Some 20261231100000 /\
  spec_first_id (Sample.new_year 1) = Some 20270101100000 /\
  spec_first_id (Sample.new_year 2) = Some 20270101100000.
Proof. repeat split. Qed.

(** C8.  The sentinel is inert after seeding: on a store that holds the
    sentinel and a ticket whose id was seeded from a date with a four-digit
    year, [generate_ticket_id] writes nothing and returns the greatest id
    present plus one, and that greatest id is above the sentinel's
    10000000000000, as the date-seeded id already is. *)
Theorem sentinel_inert (env : Env) (w : World) (s t : Doc) (today : DateTime) :
  In s (collection w) -> _id s = sentinel_id ->
  In t (collection w) ->
  valid_date today -> (1000 <= year today)%N ->
  initial_ticket_id (year today) (month today) (strftime_d today) 100000
    = Some (_id t) ->
  exists mx,
    is_max_id (collection w) mx /\
    generate_ticket_id env w = (Ok (mx + 1), w) /\
    sentinel_id < _id t /\ _id t <= mx /\ mx <> _id s.
Proof.
  intros Is Es It [Vy [Vm Vd]] Y Hi.
  rewrite initial_ticket_id_value in Hi by lia. injection Hi as Hi.
  pose proof (date_seed_above_sentinel (year today) (month today)
                (day today) Y) as A.
  assert (Hm : exists mx, is_max_id (collection w) mx).
  { destruct (collection w) as [|d ds]; [destruct Is|].
    eexists. apply max_by_id_is_max. }
  destruct Hm as [mx Hm]. exists mx.
  split; [exact Hm|]. split; [apply generate_nonempty, Hm|].
  apply Hm in It. lia.
Qed.

Lemma sentinel_inert_witness :
  exists mx,
    is_max_id [sentinel_doc 20261103100000;
               ticket_doc 20261103100000 (None, None, None)
                 (Sample.at_micro 0) (Sample.at_micro 0)] mx /\
    generate_ticket_id Sample.idle
      {| collection := [sentinel_doc 20261103100000;
                        ticket_doc 20261103100000 (None, None, None)
                          (Sample.at_micro 0) (Sample.at_micro 0)];
         clock_reads := 5; stdout := []; outbox := [] |}
    = (Ok (mx + 1),
       {| collection := [sentinel_doc 20261103100000;
                         ticket_doc 20261103100000 (None, None, None)
                           (Sample.at_micro 0) (Sample.at_micro 0)];
          clock_reads := 5; stdout := []; outbox := [] |}) /\
    sentinel_id < 20261103100000 /\ 20261103100000 <= mx /\
    mx <> sentinel_id.
Proof.
  apply (sentinel_inert Sample.idle
           {| collection := [sentinel_doc 20261103100000;
                             ticket_doc 20261103100000 (None, None, None)
                               (Sample.at_micro 0) (Sample.at_micro 0)];
              clock_reads := 5; stdout := []; outbox := [] |}
           (sentinel_doc 20261103100000)
           (ticket_doc 20261103100000 (None, None, None)
              (Sample.at_micro 0) (Sample.at_micro 0))
           (Sample.at_micro 0)).
  - left; reflexivity.
  - reflexivity.
  - right; left; reflexivity.
  - unfold valid_date; simpl; lia.
  - simpl; lia.
  - reflexivity.
Defined.

(** C6.  Whatever the store holds and whatever texts [create_ticket] is
    given, the call succeeds and the ticket it stores has sender
    "Unknown Sender" when the sender is missing or the empty text, the
    given sender otherwise; subject "No Subject" and message "No Content"
    likewise; and status "open".  Given a [Header] object as sender, the
    call raises and stores no ticket. *)
Theorem create_ticket_defaults (env : Env) (w : World)
  (from ticket_subject ticket_message : option pystr) :
  (exists id w' pre t,
     create_ticket env (option_map Str from) ticket_subject ticket_message w
       = (Ok id, w') /\
     collection w' = pre ++ [t] /\
     _id t = id /\
     sender t =
       match from with
       | None => "Unknown Sender"
       | Some EmptyString => "Unknown Sender"
       | Some (String c s) => String c s
       end%string /\
     subject t =
       match ticket_subject with
       | None => "No Subject"
       | Some EmptyString => "No Subject"
       | Some (String c s) => String c s
       end%string /\
     message t =
       match ticket_message with
       | None => "No Content"
       | Some EmptyString => "No Content"
       | Some (String c s) => String c s
       end%string /\
     status t = "open"%string) /\
  (forall h, exists pre w',
     create_ticket env (Some (Obj h)) ticket_subject ticket_message w
       = (Raise InvalidDocument, w') /\
     collection w' = collection w ++ pre /\
     Forall (fun d => _id d = sentinel_id) pre).
Proof.
  split.
  - destruct (create_ticket_run env w (from, ticket_subject, ticket_message))
      as [id [pre [k [_ [_ Hc]]]]].
    eexists id, _, pre, _. split; [exact Hc|].
    cbn [collection ticket_doc _id sender subject message status].
    destruct from as [[|? ?]|], ticket_subject as [[|? ?]|],
      ticket_message as [[|? ?]|]; repeat split; reflexivity.
  - intros h.
    destruct (create_ticket_object env w h ticket_subject ticket_message)
      as [id [pre [k [Hg Hc]]]].
    destruct (collection w) as [|d ds] eqn:E.
    + destruct (generate_empty env w E) as [p [_ [_ Hg']]].
      rewrite Hg' in Hg. injection Hg as _ <- _.
      eexists [_], _. split; [exact Hc|]. split; [reflexivity|].
      repeat constructor.
    + pose proof (max_by_id_is_max d ds) as Hm. rewrite <- E in Hm.
      rewrite (generate_nonempty env w _ Hm) in Hg.
      injection Hg as _ Hw.
      exists [], {| collection := pre; clock_reads := S (S k);
                    stdout := stdout w; outbox := outbox w |}.
      split; [exact Hc|]. split; [|constructor].
      cbn [collection]. rewrite app_nil_r, <- E, Hw. reflexivity.
Qed.

(** The stored ticket takes [created_at] and [updated_at] from two
    successive reads of the clock, made after the id is generated,
    [created_at] first, each cut to the millisecond; so the two fields are
    equal exactly when the two reads fall in the same millisecond. *)
Lemma timestamps_successive_reads (env : Env) (w : World)
  (from ticket_subject ticket_message : option pystr) :
  exists id w' pre t k,
    create_ticket env (option_map Str from) ticket_subject ticket_message w
      = (Ok id, w') /\
    collection w' = pre ++ [t] /\
    _id t = id /\
    (clock_reads w <= k)%nat /\
    clock_reads w' = S (S k) /\
    created_at t = VDate (to_millis (clock env k)) /\
    updated_at t = VDate (to_millis (clock env (S k))) /\
    (created_at t = updated_at t <->
     to_millis (clock env k) = to_millis (clock env (S k))).
Proof.
  destruct (create_ticket_run env w (from, ticket_subject, ticket_message))
    as [id [pre [k [Hg [_ Hc]]]]].
  eexists id, _, pre, _, k. split; [exact Hc|].
  cbn [collection clock_reads].
  cbv beta iota delta [ticket_doc _id created_at updated_at].
  repeat split.
  - destruct (collection w) as [|d ds] eqn:E.
    + destruct (generate_empty env w E) as [p [_ [_ Hg']]].
      rewrite Hg' in Hg. injection Hg as _ _ <-. lia.
    + pose proof (max_by_id_is_max d ds) as Hm. rewrite <- E in Hm.
      rewrite (generate_nonempty env w _ Hm) in Hg.
      injection Hg as _ Hw. rewrite Hw. cbn. lia.
  - intros H. congruence.
  - intros H. now rewrite H.
Qed.

(** C9 at a failing input.  The clock is read for [created_at] one
    microsecond before a millisecond ends and for [updated_at] one
    microsecond later: the ticket is stored with two different timestamps,
    a millisecond apart, and neither field is "the" creation time. *)
Theorem timestamps_differ_across_millisecond :
  create_ticket Sample.at_boundary (Some (Str "alice@example.com"))
    (Some "Help"%string) (Some "It's broken"%string) Sample.start
  = (Ok 20261103100000,
     {| collection :=
          [sentinel_doc 20261103100000;
           {| _id := 20261103100000;
              ticket_id := 20261103100000;
              sender := "alice@example.com"%string;
              subject := "Help";
              message := "It's broken";
              status := "open";
              created_at := VDate (Sample.at_micro 0);
              updated_at := VDate (Sample.at_micro 1000) |}];
        clock_reads := 5;
        stdout := [TicketCreated 20261103100000];
        outbox := [] |}) /\
  Sample.across_millisecond 3 = Sample.at_micro 999 /\
  Sample.across_millisecond 4 = Sample.at_micro 1000 /\
  VDate (Sample.at_micro 0) <> VDate (Sample.at_micro 1000).
Proof. repeat split. discriminate. Qed.

(** C10.  After one or more creations on an initially empty store the
    collection is the sentinel followed by the tickets: every ticket has
    [ticket_id] equal to its [_id], and the sentinel, whose [_id] is
    10000000000000 and whose [ticket_id] is the first id handed out, is the
    one document where the two differ.  On any store at all, the document
    [create_ticket] appends has [ticket_id] equal to [_id]; when the
    sender is a [Header] object it appends none and raises. *)
Theorem only_sentinel_differs (env : Env) (r : Request) (reqs : list Request)
  (w : World) :
  collection w = [] ->
  exists first ids w' tickets,
    create_all env (r :: reqs) w = (Ok (first :: ids), w') /\
    collection w' = sentinel_doc first :: tickets /\
    map _id tickets = first :: ids /\
    Forall (fun t => ticket_id t = _id t) tickets /\
    ticket_id (sentinel_doc first) = first /\
    _id (sentinel_doc first) = 10000000000000 /\
    first <> 10000000000000 /\
    (forall d, In d (collection w') -> ticket_id d <> _id d ->
               d = sentinel_doc first) /\
    (forall w1 (from ticket_subject ticket_message : option pystr),
     exists id w2 pre t,
       create_ticket env (option_map Str from) ticket_subject
         ticket_message w1 = (Ok id, w2) /\
       collection w2 = pre ++ [t] /\
       _id t = id /\ ticket_id t = _id t) /\
    (forall w1 h ticket_subject ticket_message,
     exists w2,
       create_ticket env (Some (Obj h)) ticket_subject ticket_message w1
       = (Raise InvalidDocument, w2)).
Proof.
  intros E.
  destruct (create_all_empty env r reqs w E)
    as [first [ids [w' [ts [Ha [_ [Hs [Hmap [Hf [Hne _]]]]]]]]]].
  exists first, ids, w', ts.
  split; [exact Ha|]. split; [exact Hs|]. split; [exact Hmap|].
  split; [exact Hf|]. split; [reflexivity|]. split; [reflexivity|].
  split; [exact Hne|]. split; [|split].
  - intros d I D. rewrite Hs in I. destruct I as [<-|I]; [reflexivity|].
    rewrite Forall_forall in Hf. apply Hf in I. contradiction.
  - intros w1 from ticket_subject ticket_message.
    destruct (create_ticket_run env w1 (from, ticket_subject, ticket_message))
      as [id [pre [k [_ [_ Hc]]]]].
    eexists id, _, pre, _. split; [exact Hc|]. repeat split.
  - intros w1 h ticket_subject ticket_message.
    destruct (create_ticket_object env w1 h ticket_subject ticket_message)
      as [id [pre [k [_ Hc]]]].
    eexists. exact Hc.
Qed.

Lemma only_sentinel_differs_witness :
  exists first ids w' tickets,
    create_all Sample.idle Sample.three_requests Sample.start
      = (Ok (first :: ids), w') /\
    collection w' = sentinel_doc first :: tickets /\
    map _id tickets = first :: ids /\
    Forall (fun t => ticket_id t = _id t) tickets /\
    ticket_id (sentinel_doc first) = first /\
    _id (sentinel_doc first) = 10000000000000 /\
    first <> 10000000000000 /\
    (forall d, In d (collection w') -> ticket_id d <> _id d ->
               d = sentinel_doc first) /\
    (forall w1 (from ticket_subject ticket_message : option pystr),
     exists id w2 pre t,
       create_ticket Sample.idle (option_map Str from) ticket_subject
         ticket_message w1 = (Ok id, w2) /\
       collection w2 = pre ++ [t] /\
       _id t = id /\ ticket_id t = _id t) /\
    (forall w1 h ticket_subject ticket_message,
     exists w2,
       create_ticket Sample.idle (Some (Obj h)) ticket_subject
         ticket_message w1
       = (Raise InvalidDocument, w2)).
Proof.
  apply (only_sentinel_differs Sample.idle
           (Some "alice@example.com", Some "Help", Some "It's broken")
           [(None, None, None); (Some "bob@example.com", Some "", Some "")]
           Sample.start).
  reflexivity.
Defined.

End TicketClaims.

(** ** Claims about parsing and the poll cycle *)

Section Parsing.

Local Open Scope list_scope.

Variable env : Env.

Lemma bytes_decode_utf8 (b : bytes) :
  bytes_decode env "utf-8" b
  = if utf8_valid b then Ok b else Raise UnicodeDecodeError.
Proof. reflexivity. Qed.

Lemma decode_part (part : Message) :
  match get_payload_decode part with
  | None => Raise AttributeError
  | Some b =>
      match bytes_decode env "utf-8" b with
      | Ok s => Ok (Some s)
      | Raise e => Raise e
      end
  end = decoded_content part.
Proof.
  unfold decoded_content. destruct (get_payload_decode part) as [b|].
  - rewrite bytes_decode_utf8. destruct (utf8_valid b); reflexivity.
  - reflexivity.
Qed.

(** The loop stops at the first part that passes its test. *)
Lemma walk_loop_find (todo : list Message) :
  walk_loop env todo =
  match find passes_loop_test todo with
  | Some part => decoded_content part
  | None => Ok None
  end.
Proof.
  induction todo as [|part rest IH]; cbn [walk_loop find].
  - reflexivity.
  - fold (passes_loop_test part).
    destruct (passes_loop_test part); [apply decode_part | exact IH].
Qed.

(** A fetched message is parsed without touching the world; only the
    decoding of the subject and of the chosen body can fail. *)
Lemma parse_email_fetched (email_id : bytes) (msg : Message) (w : World) :
  fetch env email_id = ("OK", msg) ->
  parse_email env email_id w
  = (parsed_with msg (first_chunk_subject env msg)
       (body_by passes_loop_test msg), w).
Proof.
  intros F. unfold parse_email. rewrite F.
  change (String.eqb "OK" "OK") with true. cbv iota beta. cbn [negb].
  assert (B : forall s,
    bind (if is_multipart msg then lift (walk_loop env (walk msg))
          else match get_payload_decode msg with
               | None => raise AttributeError
               | Some b =>
                   bind (lift (bytes_decode env "utf-8" b))
                        (fun s => ret (Some s))
               end)
         (fun ticket_message =>
            ret (option_map value_of (get msg "From"), Some s,
                 ticket_message)) w
    = (parsed_with msg (Ok s) (body_by passes_loop_test msg), w)).
  { intros s. unfold body_by, parsed_with, bind, lift, raise, ret.
    destruct (is_multipart msg).
    - rewrite walk_loop_find.
      destruct (find passes_loop_test (walk msg)) as [part|];
        [destruct (decoded_content part)|]; reflexivity.
    - rewrite <- decode_part.
      destruct (get_payload_decode msg) as [b|]; [|reflexivity].
      destruct (bytes_decode env "utf-8" b); reflexivity. }
  unfold first_chunk_subject.
  destruct (get msg "Subject") as [h|]; [|apply B].
  destruct (Val.truthy (value_of h)); [|apply B].
  destruct (decode_header h) as [|[[b|s] encoding] rest].
  - reflexivity.
  - unfold bind at 1. unfold lift at 1.
    assert (E : (if Py.falsy encoding then "utf-8"%string
                 else Py.str_opt encoding)
                = match encoding with
                  | Some charset =>
                      if Py.truthy charset then charset else "utf-8"%string
                  | None => "utf-8"%string
                  end).
    { destruct encoding as [[|c e]|]; reflexivity. }
    rewrite E.
    destruct encoding as [charset|].
    + destruct (bytes_decode env _ b) as [s|e]; [apply B | reflexivity].
    + destruct (bytes_decode env _ b) as [s|e]; [apply B | reflexivity].
  - apply B.
Qed.

Lemma find_first (test : Message -> bool) (pre post : list Message)
  (part : Message) :
  (forall p, In p pre -> test p = false) -> test part = true ->
  find test (pre ++ part :: post) = Some part.
Proof.
  intros Hpre Hpart. induction pre as [|p pre IH]; cbn [app find].
  - now rewrite Hpart.
  - rewrite (Hpre p (or_introl eq_refl)). apply IH.
    intros q I. apply Hpre. now right.
Qed.

Lemma find_none (test : Message -> bool) (l : list Message) :
  (forall p, In p l -> test p = false) -> find test l = None.
Proof.
  intros H. induction l as [|p l IH]; cbn [find]; [reflexivity|].
  rewrite (H p (or_introl eq_refl)). apply IH.
  intros q I. apply H. now right.
Qed.

(** A header with a non-empty text is true, [str] or object. *)
Lemma value_truthy (h : Header) :
  Py.truthy (raw h) = true -> Val.truthy (value_of h) = true.
Proof. intros T. unfold value_of. now destruct (as_object h). Qed.

(** A subject made of one encoded word in UTF-8 comes back whole. *)
Lemma subject_single_word (msg : Message) (h : Header) (b : bytes) :
  get msg "Subject" = Some h -> Py.truthy (raw h) = true ->
  decode_header h = [(CBytes b, Some "utf-8"%string)] ->
  utf8_valid b = true ->
  first_chunk_subject env msg = Ok b.
Proof.
  intros G T D V. unfold first_chunk_subject.
  rewrite G, (value_truthy h T), D.
  cbn [Py.truthy]. now rewrite bytes_decode_utf8, V.
Qed.

(** Without a Subject header the subject is "No Subject". *)
Lemma subject_absent (msg : Message) :
  get msg "Subject" = None ->
  first_chunk_subject env msg = Ok "No Subject"%string.
Proof. intros G. unfold first_chunk_subject. now rewrite G. Qed.

(** A message whose fetch fails yields three [None] and one printed line. *)
Lemma parse_email_not_fetched (email_id : bytes) (w : World) :
  String.eqb (fst (fetch env email_id)) "OK" = false ->
  parse_email env email_id w
  = (Ok (None, None, None),
     {| collection := collection w; clock_reads := clock_reads w;
        stdout := stdout w ++ [FetchFailed email_id];
        outbox := outbox w |}).
Proof.
  intros F. unfold parse_email.
  destruct (fetch env email_id) as [status msg]. cbn [fst] in F.
  rewrite F. reflexivity.
Qed.

(** Nothing is sent to a missing or empty sender. *)
Lemma send_ticket_email_no_sender (to : option HeaderValue) (n : Z)
  (w : World) :
  Val.falsy to = true ->
  send_ticket_email env to n w
  = (Ok tt,
     {| collection := collection w; clock_reads := clock_reads w;
        stdout := stdout w ++ [SenderNotDefined];
        outbox := outbox w |}).
Proof.
  intros F. unfold send_ticket_email.
  destruct to as [v|]; [|reflexivity].
  cbn [Val.falsy] in F. now rewrite F.
Qed.

(** The loop body on a message that cannot be fetched: the failure is
    printed and a ticket made of defaults is stored all the same. *)
Lemma process_one_not_fetched (email_id : bytes) (w : World) :
  String.eqb (fst (fetch env email_id)) "OK" = false ->
  exists nid w' pre created updated,
    process_one env email_id w = (Ok tt, w') /\
    collection w' =
      pre ++ [ticket_doc nid (None, None, None) created updated] /\
    outbox w' = outbox w /\
    stdout w' = stdout w ++ [FetchFailed email_id; TicketCreated nid;
                             SenderNotDefined].
Proof.
  intros F.
  destruct (create_ticket_run env
              {| collection := collection w; clock_reads := clock_reads w;
                 stdout := stdout w ++ [FetchFailed email_id];
                 outbox := outbox w |} (None, None, None))
    as [nid [pre [k [_ [_ Hc]]]]].
  cbn [option_map] in Hc.
  eexists nid, _, pre, _, _. split.
  { unfold process_one, bind.
    rewrite (parse_email_not_fetched email_id w F).
    rewrite Hc. apply send_ticket_email_no_sender. reflexivity. }
  cbn [collection outbox stdout]. rewrite <- !app_assoc. repeat split.
Qed.

(** C5, as the code has it.  For a fetched message the body [parse_email]
    returns is, on a multipart, the strict UTF-8 decoding of the payload of
    the first part in [walk] order whose content type is [text/plain] and
    whose Content-Disposition header text does not contain the word
    [attachment] (so a [text/html] part is never taken), and nothing when
    no part passes; on any other message it is the decoding of the single
    payload. *)
Theorem body_is_first_passing_part (email_id : bytes) (msg : Message)
  (w : World) :
  fetch env email_id = ("OK", msg) ->
  parse_email env email_id w
    = (parsed_with msg (first_chunk_subject env msg)
         (body_by passes_loop_test msg), w) /\
  (is_multipart msg = true ->
   (forall pre part post,
      walk msg = pre ++ part :: post ->
      (forall p, In p pre -> passes_loop_test p = false) ->
      passes_loop_test part = true ->
      body_by passes_loop_test msg = decoded_content part) /\
   ((forall p, In p (walk msg) -> passes_loop_test p = false) ->
    body_by passes_loop_test msg = Ok None)) /\
  (is_multipart msg = false ->
   body_by passes_loop_test msg = decoded_content msg) /\
  (forall part,
     passes_loop_test part = true ->
     get_content_type part = "text/plain"%string /\
     Py.contains "attachment"
       (Py.str_opt (option_map raw (get part "Content-Disposition")))
     = false).
Proof.
  intros F. split; [apply parse_email_fetched, F|]. split; [|split].
  - intros M. unfold body_by. rewrite M. split.
    + intros pre part post W Hpre Hpart.
      now rewrite W, (find_first _ pre post part Hpre Hpart).
    + intros H. now rewrite (find_none _ _ H).
  - intros M. unfold body_by. now rewrite M.
  - intros part T. unfold passes_loop_test in T.
    apply andb_true_iff in T. destruct T as [T1 T2].
    apply String.eqb_eq in T1. apply negb_true_iff in T2. now split.
Qed.

(** C7.  A fetched message without From header that parses is turned into
    a ticket whose sender is "Unknown Sender", and no confirmation is sent:
    the outbox is as before and the last line printed says so. *)
Theorem no_from_no_confirmation (email_id : bytes) (msg : Message) (w w1 : World)
  (r : Parsed) :
  fetch env email_id = ("OK", msg) ->
  get msg "From" = None ->
  parse_email env email_id w = (Ok r, w1) ->
  exists nid w' pre t,
    process_one env email_id w = (Ok tt, w') /\
    collection w' = pre ++ [t] /\
    _id t = nid /\
    sender t = "Unknown Sender"%string /\
    status t = "open"%string /\
    outbox w' = outbox w /\
    stdout w' = stdout w ++ [TicketCreated nid; SenderNotDefined].
Proof.
  intros F N P.
  rewrite (parse_email_fetched email_id msg w F) in P.
  unfold parsed_with in P. rewrite N in P. cbn [option_map] in P.
  destruct (first_chunk_subject env msg) as [subj|e] eqn:Es; [|discriminate].
  destruct (body_by passes_loop_test msg) as [body|e] eqn:Eb; [|discriminate].
  injection P as <- <-.
  destruct (create_ticket_run env w (None, Some subj, body))
    as [nid [pre [k [_ [_ Hc]]]]].
  cbn [option_map] in Hc.
  eexists nid, _, pre, _.
  split.
  { unfold process_one, bind.
    rewrite (parse_email_fetched email_id msg w F).
    unfold parsed_with. rewrite N, Es, Eb. cbn [option_map].
    rewrite Hc. apply send_ticket_email_no_sender. reflexivity. }
  cbn [collection outbox stdout ticket_doc _id sender status defaulted].
  rewrite <- app_assoc. repeat split.
Qed.

End Parsing.

Section ParsingSamples.

Local Open Scope list_scope.

Lemma body_is_first_passing_part_witness :
  parse_email (Sample.mailbox ["1"] (fun _ => ("OK", Sample.anonymous_message)))
    "1" Sample.start
    = (parsed_with Sample.anonymous_message
         (first_chunk_subject
            (Sample.mailbox ["1"] (fun _ => ("OK", Sample.anonymous_message)))
            Sample.anonymous_message)
         (body_by passes_loop_test Sample.anonymous_message), Sample.start) /\
  (is_multipart Sample.anonymous_message = true ->
   (forall pre part post,
      walk Sample.anonymous_message = pre ++ part :: post ->
      (forall p, In p pre -> passes_loop_test p = false) ->
      passes_loop_test part = true ->
      body_by passes_loop_test Sample.anonymous_message
      = decoded_content part) /\
   ((forall p, In p (walk Sample.anonymous_message) ->
               passes_loop_test p = false) ->
    body_by passes_loop_test Sample.anonymous_message = Ok None)) /\
  (is_multipart Sample.anonymous_message = false ->
   body_by passes_loop_test Sample.anonymous_message
   = decoded_content Sample.anonymous_message) /\
  (forall part,
     passes_loop_test part = true ->
     get_content_type part = "text/plain"%string /\
     Py.contains "attachment"
       (Py.str_opt (option_map raw (get part "Content-Disposition")))
     = false).
Proof.
  apply (body_is_first_passing_part
           (Sample.mailbox ["1"] (fun _ => ("OK", Sample.anonymous_message)))
           "1" Sample.anonymous_message Sample.start).
  reflexivity.
Defined.

(** C5, as it is stated, fails: a part shown inline whose file name holds
    the word attachment is passed over, although its disposition is not
    [attachment]. *)
Lemma body_first_non_attachment_refuted :
  ~ (forall env email_id msg w r w',
       fetch env email_id = ("OK", msg) ->
       parse_email env email_id w = (Ok r, w') ->
       Ok (snd r) = body_by plain_not_attachment msg).
Proof.
  intros H.
  specialize (H (Sample.mailbox ["1"]
                   (fun _ => ("OK", Sample.inline_named_message)))
                "1" Sample.inline_named_message Sample.start
                (Some (Str "carol@example.com"), Some "Notes", Some "second")
                Sample.start eq_refl eq_refl).
  discriminate H.
Qed.

Lemma no_from_no_confirmation_witness :
  exists nid w' pre t,
    process_one
      (Sample.mailbox ["1"] (fun _ => ("OK", Sample.anonymous_message)))
      "1" Sample.start = (Ok tt, w') /\
    collection w' = pre ++ [t] /\
    _id t = nid /\
    sender t = "Unknown Sender"%string /\
    status t = "open"%string /\
    outbox w' = outbox Sample.start /\
    stdout w' = stdout Sample.start ++ [TicketCreated nid; SenderNotDefined].
Proof.
  apply (no_from_no_confirmation
           (Sample.mailbox ["1"] (fun _ => ("OK", Sample.anonymous_message)))
           "1" Sample.anonymous_message Sample.start Sample.start
           (None, Some "Help", Some "It's broken")).
  - reflexivity.
  - reflexivity.
  - reflexivity.
Defined.

(** C3 at a failing input.  The one unseen message cannot be fetched (the
    server answers NO): the failure is printed, and yet a ticket with
    nothing but defaults is stored for the message. *)
Theorem failed_fetch_still_creates_ticket :
  process_emails (Sample.mailbox ["7"] (fun _ => ("NO", Sample.no_message)))
    Sample.start
  = (Ok tt,
     {| collection :=
          [sentinel_doc 20261103100000;
           {| _id := 20261103100000;
              ticket_id := 20261103100000;
              sender := "Unknown Sender";
              subject := "No Subject";
              message := "No Content";
              status := "open";
              created_at := VDate (Sample.at_micro 0);
              updated_at := VDate (Sample.at_micro 0) |}];
        clock_reads := 5;
        stdout := [FetchFailed "7"; TicketCreated 20261103100000;
                   SenderNotDefined];
        outbox := [] |}).
Proof. reflexivity. Qed.

(** C4 at a failing input.  The subject of a reply, [Re: ] followed by an
    encoded word, decodes to two parts; [parse_email] keeps the first and
    returns [Re: ] where the original subject has the accented letter
    after it. *)
Theorem reply_subject_truncated :
  parse_email (Sample.mailbox ["1"] (fun _ => ("OK", Sample.reply_message)))
    "1" Sample.start
  = (Ok (Some (Str "bob@example.com"), Some "Re: ", Some "Thanks"),
     Sample.start)
  /\ "Re: "%string <> ("Re: " ++ Sample.e_acute)%string.
Proof. split; [reflexivity | discriminate]. Qed.

End ParsingSamples.

(** ** What one message does to the world *)

Section Frames.

Local Open Scope list_scope.

Variable env : Env.

Lemma reads_before_ticket_ge (w : World) :
  (clock_reads w <= reads_before_ticket w)%nat.
Proof. unfold reads_before_ticket. destruct (collection w); lia. Qed.

(** What [generate_ticket_id] leaves behind, on any store. *)
Lemma generate_world (w : World) :
  exists id,
    generate_ticket_id env w
    = (Ok id,
       {| collection := collection w ++ seed_if_empty (collection w) id;
          clock_reads := reads_before_ticket w;
          stdout := stdout w;
          outbox := outbox w |}) /\
    has_id id (collection w ++ seed_if_empty (collection w) id) = false /\
    (collection w = [] -> id <> sentinel_id) /\
    (forall m, is_max_id (collection w) m -> id = m + 1).
Proof.
  unfold reads_before_ticket.
  destruct (collection w) as [|d ds] eqn:E.
  - destruct (generate_empty env w E) as [p [Hp [_ Hg]]].
    exists (p * 1000000 + 100000). split; [exact Hg|].
    assert (N : p * 1000000 + 100000 <> sentinel_id).
    { unfold sentinel_id. lia. }
    split; [|split].
    + cbn [app seed_if_empty]. unfold has_id. cbn [existsb].
      rewrite orb_false_r. apply Z.eqb_neq.
      unfold sentinel_doc. cbn [_id]. congruence.
    + intros _. exact N.
    + intros m [[x [[] _]] _].
  - pose proof (max_by_id_is_max d ds) as Hm. rewrite <- E in Hm.
    exists (_id (max_by_id d ds) + 1).
    rewrite (generate_nonempty env w _ Hm).
    cbn [seed_if_empty]. rewrite app_nil_r, <- E.
    split; [destruct w; reflexivity|]. split; [|split].
    + apply (has_id_above _ (_id (max_by_id d ds))); [apply Hm | lia].
    + rewrite E. discriminate.
    + intros m Hm'. now rewrite (is_max_id_unique _ _ _ Hm' Hm).
Qed.

(** [create_ticket] on a text request, in full: the documents, the line
    and the clock reads it adds, and the id it picks. *)
Lemma create_ticket_world (w : World) (r : Request) :
  exists id,
    (let '(from, ticket_subject, ticket_message) := r in
     create_ticket env (option_map Str from) ticket_subject
       ticket_message w)
    = (Ok id,
       {| collection :=
            collection w ++ seed_if_empty (collection w) id
              ++ [ticket_doc id r
                    (to_millis (clock env (reads_before_ticket w)))
                    (to_millis (clock env (S (reads_before_ticket w))))];
          clock_reads := S (S (reads_before_ticket w));
          stdout := stdout w ++ [TicketCreated id];
          outbox := outbox w |}) /\
    has_id id (collection w ++ seed_if_empty (collection w) id) = false /\
    (collection w = [] -> id <> sentinel_id) /\
    (forall m, is_max_id (collection w) m -> id = m + 1).
Proof.
  destruct (generate_world w) as [id [Hg [Hn [He Hm]]]].
  exists id. split; [|repeat split; assumption].
  destruct r as [[s subj] body].
  unfold create_ticket, bind. rewrite Hg.
  unfold now, insert_one, print, ret.
  destruct s as [[|? ?]|], subj as [[|? ?]|], body as [[|? ?]|];
    simpl; rewrite Hn, <- app_assoc; reflexivity.
Qed.

(** [create_ticket] on a [Header] object: the id is generated, with the
    sentinel stored on an empty collection, the clock is read twice more,
    and the insert raises. *)
Lemma create_ticket_object_world (w : World) (h : Header)
  (ticket_subject ticket_message : option pystr) :
  exists id,
    create_ticket env (Some (Obj h)) ticket_subject ticket_message w
    = (Raise InvalidDocument,
       {| collection := collection w ++ seed_if_empty (collection w) id;
          clock_reads := S (S (reads_before_ticket w));
          stdout := stdout w;
          outbox := outbox w |}).
Proof.
  destruct (generate_world w) as [id [Hg _]].
  exists id. unfold create_ticket, bind. rewrite Hg. reflexivity.
Qed.

(** [send_ticket_email] never raises and touches nothing but the printed
    lines and the outbox, which gets at most one mail. *)
Lemma send_ticket_email_world (to : option HeaderValue) (n : Z) (w : World) :
  exists lines mails,
    send_ticket_email env to n w
    = (Ok tt,
       {| collection := collection w; clock_reads := clock_reads w;
          stdout := stdout w ++ lines; outbox := outbox w ++ mails |}) /\
    (List.length mails <= 1)%nat.
Proof.
  unfold send_ticket_email.
  assert (Q : exists lines mails,
             print SenderNotDefined w
             = (Ok tt,
                {| collection := collection w; clock_reads := clock_reads w;
                   stdout := stdout w ++ lines;
                   outbox := outbox w ++ mails |}) /\
             (List.length mails <= 1)%nat).
  { exists [SenderNotDefined], []. split; [|cbn; lia].
    unfold print. now rewrite app_nil_r. }
  destruct to as [v|]; [|exact Q].
  destruct (Val.truthy v); cbn [negb]; [|exact Q].
  destruct (index_html env) as [html|].
  - destruct (smtp_ok env).
    + eexists [PrintSender (Val.str v)], [_]. split; [|cbn; lia].
      reflexivity.
    + exists [PrintSender (Val.str v); SendFailed], [].
      split; [|cbn; lia].
      unfold bind, print. cbn. now rewrite app_nil_r, <- app_assoc.
  - exists [SendFailed], []. split; [|cbn; lia].
    unfold print. now rewrite app_nil_r.
Qed.

(** [parse_email] returns what [parse_outcome] says: it either raises and
    leaves the world as it is, or returns and has at most printed the line
    of a failed fetch. *)
Lemma parse_email_world (email_id : bytes) (w : World) :
  (exists e,
     parse_outcome env email_id = Raise e /\
     parse_email env email_id w = (Raise e, w)) \/
  (exists r lines,
     parse_outcome env email_id = Ok r /\
     parse_email env email_id w
     = (Ok r,
        {| collection := collection w; clock_reads := clock_reads w;
           stdout := stdout w ++ lines; outbox := outbox w |}) /\
     (forall h, fst (fst r) = Some (Obj h) -> lines = [])).
Proof.
  unfold parse_outcome.
  destruct (String.eqb (fst (fetch env email_id)) "OK") eqn:F.
  - destruct (fetch env email_id) as [status msg] eqn:E. cbn [fst] in F.
    rewrite F. apply String.eqb_eq in F. subst status.
    rewrite (parse_email_fetched env email_id msg w E).
    destruct (parsed_with msg _ _) as [r|e].
    + right. exists r, []. split; [reflexivity|]. split; [|reflexivity].
      destruct w. cbn. now rewrite app_nil_r.
    + left. now exists e.
  - right. rewrite (parse_email_not_fetched env email_id w F).
    destruct (fetch env email_id) as [status msg]. cbn [fst] in F.
    rewrite F.
    exists (None, None, None), [FetchFailed email_id].
    split; [reflexivity|]. split; [reflexivity|]. discriminate.
Qed.

(** One round of the loop body.  It raises before anything is written,
    when the message does not parse; or it raises [InvalidDocument] once
    the id is generated, when the sender is a [Header] object; or it
    appends the ticket of the message (after the sentinel, on an empty
    collection), prints, and sends at most one mail. *)
Lemma process_one_cases (email_id : bytes) (w : World) :
  (exists e, process_one env email_id w = (Raise e, w)) \/
  (exists nid,
     process_one env email_id w
     = (Raise InvalidDocument,
        {| collection := collection w ++ seed_if_empty (collection w) nid;
           clock_reads := S (S (reads_before_ticket w));
           stdout := stdout w;
           outbox := outbox w |})) \/
  (exists nid r lines mails,
     parse_outcome env email_id = Ok (as_parsed r) /\
     process_one env email_id w
     = (Ok tt,
        {| collection :=
             collection w ++ seed_if_empty (collection w) nid
               ++ [ticket_doc nid r
                     (to_millis (clock env (reads_before_ticket w)))
                     (to_millis (clock env (S (reads_before_ticket w))))];
           clock_reads := S (S (reads_before_ticket w));
           stdout := stdout w ++ lines;
           outbox := outbox w ++ mails |}) /\
     (List.length mails <= 1)%nat /\
     (collection w = [] -> nid <> sentinel_id) /\
     (forall m, is_max_id (collection w) m -> nid = m + 1)).
Proof.
  unfold process_one, bind.
  destruct (parse_email_world email_id w)
    as [[e [_ P]]|[r [l1 [O [P L]]]]]; rewrite P.
  - left. now exists e.
  - right. destruct r as [[from subj] body].
    set (w1 := {| collection := collection w; clock_reads := clock_reads w;
                  stdout := stdout w ++ l1; outbox := outbox w |}).
    destruct from as [[s|h]|].
    + right.
      destruct (create_ticket_world w1 (Some s, subj, body))
        as [nid [Hc [_ [He Hm]]]].
      cbn [option_map] in Hc. rewrite Hc.
      match goal with
      | |- context [send_ticket_email env (Some (Str s)) nid ?w2] =>
          destruct (send_ticket_email_world (Some (Str s)) nid w2)
            as [l2 [ms [Hs Hl]]]
      end.
      rewrite Hs. cbn [collection clock_reads stdout outbox w1].
      exists nid, (Some s, subj, body),
        (l1 ++ [TicketCreated nid] ++ l2), ms.
      split; [exact O|]. split; [|split; [exact Hl|split; assumption]].
      cbn [app]. rewrite <- !app_assoc. reflexivity.
    + left. specialize (L h eq_refl). subst l1.
      destruct (create_ticket_object_world w1 h subj body) as [nid Hc].
      rewrite Hc. exists nid. cbn [collection clock_reads stdout outbox w1].
      now rewrite app_nil_r.
    + right.
      destruct (create_ticket_world w1 (None, subj, body))
        as [nid [Hc [_ [He Hm]]]].
      cbn [option_map] in Hc. rewrite Hc.
      match goal with
      | |- context [send_ticket_email env None nid ?w2] =>
          destruct (send_ticket_email_world None nid w2)
            as [l2 [ms [Hs Hl]]]
      end.
      rewrite Hs. cbn [collection clock_reads stdout outbox w1].
      exists nid, (None, subj, body),
        (l1 ++ [TicketCreated nid] ++ l2), ms.
      split; [exact O|]. split; [|split; [exact Hl|split; assumption]].
      cbn [app]. rewrite <- !app_assoc. reflexivity.
Qed.

End Frames.

(** ** Invariants of the poll loop *)

Section Invariants.

Local Open Scope list_scope.

Lemma extends_refl (w : World) : extends w w.
Proof.
  repeat split; try (exists []; now rewrite app_nil_r). lia.
Qed.

Lemma extends_trans (w1 w2 w3 : World) :
  extends w1 w2 -> extends w2 w3 -> extends w1 w3.
Proof.
  intros [[d1 C1] [[l1 S1] [[m1 O1] K1]]] [[d2 C2] [[l2 S2] [[m2 O2] K2]]].
  repeat split.
  - exists (d1 ++ d2). now rewrite C2, C1, app_assoc.
  - exists (l1 ++ l2). now rewrite S2, S1, app_assoc.
  - exists (m1 ++ m2). now rewrite O2, O1, app_assoc.
  - lia.
Qed.

Lemma ticket_doc_id (id : Z) (r : Request) (c u : DateTime) :
  _id (ticket_doc id r c u) = id /\ ticket_id (ticket_doc id r c u) = id.
Proof. destruct r as [[? ?] ?]. now split. Qed.

Lemma sorted_snoc (l : list Z) (y : Z) :
  StronglySorted Z.lt l -> Forall (fun x => x < y) l ->
  StronglySorted Z.lt (l ++ [y]).
Proof.
  induction 1 as [|x l Hs IH Hx]; intros F; cbn.
  - repeat constructor.
  - inversion F as [|? ? Fx Fl]; subst.
    constructor; [apply IH, Fl|].
    apply Forall_app. split; [exact Hx | now constructor].
Qed.

Lemma sorted_nodup (l : list Z) : StronglySorted Z.lt l -> NoDup l.
Proof.
  induction 1 as [|x l Hs IH Hx]; constructor; [|exact IH].
  intros I. rewrite Forall_forall in Hx. apply Hx in I. lia.
Qed.

(** A well-shaped store has no two documents with the same [_id]. *)
Lemma store_ok_nodup (ds : list Doc) : store_ok ds -> NoDup (map _id ds).
Proof.
  intros [->|[first [ts [-> [Hs Hf]]]]]; [constructor|].
  cbn [map]. constructor.
  - intros I. apply in_map_iff in I. destruct I as [t [E I]].
    rewrite Forall_forall in Hf. apply Hf in I. cbn in E. tauto.
  - apply sorted_nodup, Hs.
Qed.

(** Seeding the sentinel keeps the store well shaped. *)
Lemma store_ok_seed (ds : list Doc) (nid : Z) :
  store_ok ds -> store_ok (ds ++ seed_if_empty ds nid).
Proof.
  intros [->|H].
  - right. exists nid, []. cbn. repeat split; constructor.
  - destruct H as [first [ts [-> H]]]. cbn [seed_if_empty].
    rewrite app_nil_r. right. now exists first, ts.
Qed.

(** Appending what a creation appends keeps the store well shaped. *)
Lemma store_ok_create (ds : list Doc) (nid : Z) (r : Request)
  (c u : DateTime) :
  store_ok ds ->
  (ds = [] -> nid <> sentinel_id) ->
  (forall m, is_max_id ds m -> nid = m + 1) ->
  store_ok (ds ++ seed_if_empty ds nid ++ [ticket_doc nid r c u]).
Proof.
  intros Hok He Hm. right.
  destruct (ticket_doc_id nid r c u) as [Ei Et].
  destruct Hok as [->|[first [ts [-> [Hs Hf]]]]].
  - exists nid, [ticket_doc nid r c u]. cbn.
    split; [reflexivity|]. split; [rewrite Ei; repeat constructor|].
    constructor; [|constructor]. rewrite Ei, Et. split; [reflexivity|].
    now apply He.
  - pose proof (max_by_id_is_max (sentinel_doc first) ts) as Hmax.
    specialize (Hm _ Hmax). destruct Hmax as [_ Hub].
    set (m := _id (max_by_id (sentinel_doc first) ts)) in *.
    assert (Hsen : sentinel_id <= m).
    { apply (Hub (sentinel_doc first)). now left. }
    assert (Hall : Forall (fun x => x < nid) (map _id ts)).
    { apply Forall_forall. intros x I.
      apply in_map_iff in I. destruct I as [t [<- I]].
      assert (_id t <= m) by (apply Hub; now right). lia. }
    exists first, (ts ++ [ticket_doc nid r c u]).
    cbn [seed_if_empty app]. split; [reflexivity|].
    split.
    + rewrite map_app. cbn [map]. rewrite Ei. now apply sorted_snoc.
    + apply Forall_app. split; [exact Hf|].
      constructor; [|constructor]. rewrite Ei, Et. split; [reflexivity|lia].
Qed.

Lemma steady_ret {A} (a : A) : steady (ret a).
Proof. intros w. split; [apply extends_refl | trivial]. Qed.

Lemma steady_bind {A B} (m : M A) (k : A -> M B) :
  steady m -> (forall a, steady (k a)) -> steady (bind m k).
Proof.
  intros Hm Hk w. unfold bind. specialize (Hm w).
  destruct (m w) as [[a|e] w1]; cbn [snd] in *.
  - specialize (Hk a w1). destruct Hm as [E1 S1], Hk as [E2 S2].
    split; [eapply extends_trans; eassumption | auto].
  - exact Hm.
Qed.

Lemma steady_print (l : LogLine) : steady (print l).
Proof.
  intros w. split; [|trivial]. cbn.
  repeat split; cbn; try (exists []; now rewrite app_nil_r).
  - now exists [l].
  - lia.
Qed.

Lemma steady_process_one (env : Env) (email_id : bytes) :
  steady (process_one env email_id).
Proof.
  intros w. pose proof (reads_before_ticket_ge w) as Hk.
  destruct (process_one_cases env email_id w)
    as [[e ->]|[[nid ->]|[nid [r [ls [ms [_ [-> [_ [He Hm]]]]]]]]]];
    cbn [snd collection].
  - split; [apply extends_refl | trivial].
  - split.
    + repeat split; cbn; eauto; try (exists []; now rewrite app_nil_r);
        try lia.
    + apply store_ok_seed.
  - split.
    + repeat split; cbn; eauto; try lia.
    + intros Hok. now apply store_ok_create.
Qed.

Lemma steady_for_each (env : Env) (email_ids : list bytes) :
  steady (for_each env email_ids).
Proof.
  induction email_ids as [|i rest IH]; cbn [for_each].
  - apply steady_ret.
  - apply steady_bind; [apply steady_process_one | intros _; exact IH].
Qed.

Lemma steady_process_emails (env : Env) : steady (process_emails env).
Proof.
  unfold process_emails. apply steady_bind.
  - unfold connect_to_mail_service. destruct (login_ok env).
    + apply steady_ret.
    + apply steady_bind; [apply steady_print | intros; apply steady_ret].
  - intros connected. destruct (negb connected); [apply steady_ret|].
    apply steady_bind.
    + unfold fetch_unseen_emails.
      destruct (negb (String.eqb (select_status env) "OK")).
      * apply steady_bind; [apply steady_print | intros; apply steady_ret].
      * destruct (unseen env).
        -- apply steady_bind; [apply steady_print | intros; apply steady_ret].
        -- apply steady_ret.
    + intros ids. destruct ids; [apply steady_ret | apply steady_for_each].
Qed.

Lemma steady_run_system (cycles : list Env) : steady (run_system cycles).
Proof.
  induction cycles as [|env later IH]; cbn [run_system].
  - apply steady_ret.
  - apply steady_bind; [apply steady_process_emails | intros _; exact IH].
Qed.

End Invariants.

(** ** Further properties of the poll cycle *)

Section Cycle.

Local Open Scope list_scope.

(** X1.  When the login is refused, the inbox cannot be selected, or no message
    is unseen, the cycle ends at once: nothing is stored, sent or read from
    the clock, and one line tells which of the three it was. *)
Theorem idle_cycle (env : Env) (w : World) :
  login_ok env = false \/
  String.eqb (select_status env) "OK" = false \/
  unseen env = [] ->
  process_emails env w
  = (Ok tt,
     {| collection := collection w;
        clock_reads := clock_reads w;
        stdout := stdout w ++
                  [if login_ok env
                   then if String.eqb (select_status env) "OK"
                        then NoNewThreads else InboxFailed
                   else LoginError];
        outbox := outbox w |}).
Proof.
  intros H. unfold process_emails, connect_to_mail_service,
    fetch_unseen_emails, bind.
  destruct (login_ok env); [|reflexivity].
  cbn [ret negb]. destruct (String.eqb (select_status env) "OK").
  - destruct H as [H|[H|H]]; try discriminate. rewrite H. reflexivity.
  - reflexivity.
Qed.

Lemma idle_cycle_witness :
  process_emails Sample.locked_out Sample.start
  = (Ok tt,
     {| collection := []; clock_reads := 0;
        stdout := [LoginError]; outbox := [] |}).
Proof.
  apply (idle_cycle Sample.locked_out Sample.start).
  left. reflexivity.
Defined.

(** X2.  Whatever happens in a poll cycle or in any number of them, exception
    or not, the world only grows: stored documents, printed lines and sent
    mails stay where they are and new ones come after them, and the count
    of clock reads does not go down. *)
Theorem cycles_only_append (env : Env) (cycles : list Env) (w : World) :
  extends w (snd (process_emails env w)) /\
  extends w (snd (run_system cycles w)).
Proof.
  split; [apply steady_process_emails | apply steady_run_system].
Qed.

(** X3.  A well-shaped store stays well shaped through any number of poll
    cycles, whatever the mailbox, the clock and the failures: it is empty
    or the sentinel followed by tickets with strictly increasing ids, and
    no two documents share an [_id]. *)
Theorem store_shape_kept (cycles : list Env) (w : World) :
  store_ok (collection w) ->
  store_ok (collection (snd (run_system cycles w))) /\
  NoDup (map _id (collection (snd (run_system cycles w)))).
Proof.
  intros H. pose proof (proj2 (steady_run_system cycles w) H) as K.
  split; [exact K | apply store_ok_nodup, K].
Qed.

Lemma store_shape_kept_witness :
  store_ok (collection (snd (run_system Sample.three_cycles Sample.start))) /\
  NoDup (map _id
           (collection (snd (run_system Sample.three_cycles Sample.start)))).
Proof.
  apply (store_shape_kept Sample.three_cycles Sample.start).
  left. reflexivity.
Defined.

End Cycle.

(** ** Further properties of parsing, creation and confirmation *)

Section Messages.

Local Open Scope list_scope.

Variable env : Env.

(** The loop body on a message that was fetched and parsed. *)
Lemma process_one_parsed (email_id : bytes) (msg : Message) (w : World)
  (from : option HeaderValue) (ticket_subject ticket_message : option pystr) :
  fetch env email_id = ("OK"%string, msg) ->
  parsed_with msg (first_chunk_subject env msg)
    (body_by passes_loop_test msg)
  = Ok (from, ticket_subject, ticket_message) ->
  process_one env email_id w
  = bind (create_ticket env from ticket_subject ticket_message)
         (fun new_ticket_id => send_ticket_email env from new_ticket_id) w.
Proof.
  intros F P. unfold process_one. unfold bind at 1 2.
  rewrite (parse_email_fetched env email_id msg w F), P. reflexivity.
Qed.

Lemma parsed_with_ok (msg : Message) (subj : pystr) (body : option pystr) :
  first_chunk_subject env msg = Ok subj ->
  body_by passes_loop_test msg = Ok body ->
  parsed_with msg (first_chunk_subject env msg)
    (body_by passes_loop_test msg)
  = Ok (option_map value_of (get msg "From"), Some subj, body).
Proof. intros S B. unfold parsed_with. now rewrite S, B. Qed.

(** The value of a header that is text. *)
Lemma value_of_text (h : Header) :
  as_object h = false -> value_of h = Str (raw h).
Proof. intros A. unfold value_of. now rewrite A. Qed.

(** X6.  A single-part message whose body is not valid UTF-8 stops the cycle:
    [UnicodeDecodeError] escapes [process_emails] and the loop of
    [run_system] before anything is stored, printed or sent for it, and
    the messages after it are not looked at. *)
Theorem undecodable_body_aborts_cycle (email_id : bytes) (rest : list bytes)
  (later : list Env) (msg : Message) (b : bytes) (subj : pystr) (w : World) :
  login_ok env = true ->
  select_status env = "OK"%string ->
  unseen env = email_id :: rest ->
  fetch env email_id = ("OK"%string, msg) ->
  first_chunk_subject env msg = Ok subj ->
  is_multipart msg = false ->
  get_payload_decode msg = Some b ->
  utf8_valid b = false ->
  process_emails env w = (Raise UnicodeDecodeError, w) /\
  run_system (env :: later) w = (Raise UnicodeDecodeError, w).
Proof.
  intros L S U F Hs M P V.
  assert (E : process_emails env w = (Raise UnicodeDecodeError, w)).
  { unfold process_emails, connect_to_mail_service, fetch_unseen_emails.
    unfold bind at 1. rewrite L. cbn [ret negb]. unfold bind at 1.
    rewrite S, U. change (String.eqb "OK" "OK") with true. cbn [negb ret].
    cbn [for_each]. unfold bind at 1. unfold process_one. unfold bind at 1.
    rewrite (parse_email_fetched env email_id msg w F).
    unfold parsed_with, body_by, decoded_content. rewrite Hs, M, P, V.
    reflexivity. }
  split; [exact E|]. cbn [run_system]. unfold bind. now rewrite E.
Qed.

Lemma truthy_nonempty (s : pystr) : s <> ""%string -> Py.truthy s = true.
Proof. destruct s; [contradiction | reflexivity]. Qed.

Lemma defaulted_text (s d : pystr) :
  s <> ""%string -> defaulted (Some s) d = s.
Proof. destruct s; [contradiction | reflexivity]. Qed.

(** X9.  A multipart message none of whose parts passes the test of the
    loop (one with HTML parts only, say), and whose From header is missing
    or text, becomes a ticket with the message "No Content"; its subject
    is the parsed one, or "No Subject" when that is the empty text. *)
Theorem no_plain_part_no_content (email_id : bytes) (msg : Message)
  (subj : pystr) (w : World) :
  fetch env email_id = ("OK"%string, msg) ->
  (forall h, get msg "From" = Some h -> as_object h = false) ->
  first_chunk_subject env msg = Ok subj ->
  is_multipart msg = true ->
  (forall p, In p (walk msg) -> passes_loop_test p = false) ->
  exists nid w' pre t,
    process_one env email_id w = (Ok tt, w') /\
    collection w' = pre ++ [t] /\
    _id t = nid /\
    message t = "No Content"%string /\
    subject t = match subj with
                | EmptyString => "No Subject"
                | String c s => String c s
                end%string.
Proof.
  intros F A Hs M N.
  assert (B : body_by passes_loop_test msg = Ok None).
  { unfold body_by. now rewrite M, (find_none _ _ N). }
  pose proof (parsed_with_ok msg subj None Hs B) as P.
  set (from := option_map raw (get msg "From")).
  assert (V : option_map value_of (get msg "From") = option_map Str from).
  { unfold from. destruct (get msg "From") as [h|]; [|reflexivity].
    cbn [option_map]. now rewrite (value_of_text h (A h eq_refl)). }
  rewrite V in P.
  destruct (create_ticket_world env w (from, Some subj, None))
    as [nid [Hc _]].
  match type of Hc with
  | _ = (Ok nid, ?w1) =>
      destruct (send_ticket_email_world env (option_map Str from) nid w1)
        as [ls [ms [Hsend _]]]
  end.
  eexists nid, _, (collection w ++ seed_if_empty (collection w) nid), _.
  split.
  { rewrite (process_one_parsed email_id msg w _ _ _ F P).
    unfold bind. rewrite Hc. exact Hsend. }
  cbn [collection]. split; [now rewrite app_assoc|].
  destruct subj; repeat split; reflexivity.
Qed.

(** X10.  A message whose From header is a non-empty text, once parsed,
    is stored and confirmed while the template can be read and the mail
    service answers: exactly one mail goes to the sender as written in the
    From header, under the configured name, and its text is the template
    with the sender and then the number of the ticket just stored put
    in. *)
Theorem confirmation_matches_ticket (email_id : bytes) (msg : Message)
  (h : Header) (subj tpl : pystr) (body : option pystr) (w : World) :
  fetch env email_id = ("OK"%string, msg) ->
  get msg "From" = Some h ->
  as_object h = false ->
  raw h <> ""%string ->
  first_chunk_subject env msg = Ok subj ->
  body_by passes_loop_test msg = Ok body ->
  index_html env = Some tpl ->
  smtp_ok env = true ->
  exists nid w' pre t,
    process_one env email_id w = (Ok tt, w') /\
    collection w' = pre ++ [t] /\
    _id t = nid /\
    sender t = raw h /\
    outbox w' =
      outbox w ++
      [{| mail_from := recipient_name env;
          mail_to := Str (raw h);
          mail_subject := "Support Ticket Update";
          mail_html :=
            Py.replace (Py.replace tpl "[CLIENT_NAME]" (raw h))
              "[TICKET_NUMBER]" (str_id nid) |}].
Proof.
  intros F G A NE Hs B I S.
  pose proof (truthy_nonempty (raw h) NE) as T.
  pose proof (parsed_with_ok msg subj body Hs B) as P. rewrite G in P.
  cbn [option_map] in P. rewrite (value_of_text h A) in P.
  destruct (create_ticket_world env w (Some (raw h), Some subj, body))
    as [nid [Hc _]].
  cbn [option_map] in Hc.
  eexists nid, _, (collection w ++ seed_if_empty (collection w) nid), _.
  split.
  { rewrite (process_one_parsed email_id msg w _ _ _ F P).
    unfold bind at 1. rewrite Hc. unfold send_ticket_email.
    cbn [Val.truthy Val.str]. rewrite T, I, S. cbn [negb]. reflexivity. }
  cbn [collection outbox]. split; [now rewrite app_assoc|].
  cbv beta iota delta [ticket_doc _id sender].
  rewrite (defaulted_text (raw h) _ NE). repeat split.
Qed.


(** X18.  A From header that holds raw octets above 127 reaches
    [create_ticket] as a [Header] object.  The loop body then raises
    [InvalidDocument] at the insert of the ticket: no ticket is stored,
    nothing is printed or sent, but the id was generated before, so an
    empty store is left with the sentinel alone and the clock has been
    read; the exception escapes [process_emails], and the messages after
    this one are not looked at. *)
Theorem header_object_sender_aborts (email_id : bytes) (rest : list bytes)
  (msg : Message) (h : Header) (subj : pystr) (body : option pystr)
  (w : World) :
  login_ok env = true ->
  select_status env = "OK"%string ->
  unseen env = email_id :: rest ->
  fetch env email_id = ("OK"%string, msg) ->
  get msg "From" = Some h ->
  as_object h = true ->
  first_chunk_subject env msg = Ok subj ->
  body_by passes_loop_test msg = Ok body ->
  exists first,
    process_one env email_id w
    = (Raise InvalidDocument,
       {| collection := collection w ++ seed_if_empty (collection w) first;
          clock_reads := S (S (reads_before_ticket w));
          stdout := stdout w;
          outbox := outbox w |}) /\
    process_emails env w = process_one env email_id w.
Proof.
  intros L Sel U F G A Hs B.
  pose proof (parsed_with_ok msg subj body Hs B) as P. rewrite G in P.
  cbn [option_map] in P. unfold value_of in P. rewrite A in P.
  destruct (create_ticket_object_world env w h (Some subj) body)
    as [first Hc].
  assert (E : process_one env email_id w
              = (Raise InvalidDocument,
                 {| collection :=
                      collection w ++ seed_if_empty (collection w) first;
                    clock_reads := S (S (reads_before_ticket w));
                    stdout := stdout w;
                    outbox := outbox w |})).
  { rewrite (process_one_parsed email_id msg w _ _ _ F P).
    unfold bind. now rewrite Hc. }
  exists first. split; [exact E|].
  unfold process_emails, connect_to_mail_service, fetch_unseen_emails.
  unfold bind at 1. rewrite L. cbn [ret negb]. unfold bind at 1.
  rewrite Sel, U. change (String.eqb "OK" "OK") with true. cbn [negb ret].
  cbn [for_each]. unfold bind at 1. now rewrite E.
Qed.

(** X8.  A subject that is one encoded word in UTF-8 comes back whole, and the
    sender and body with it. *)
Theorem utf8_subject_whole (email_id : bytes) (msg : Message) (h : Header)
  (b : bytes) (body : option pystr) (w : World) :
  fetch env email_id = ("OK"%string, msg) ->
  get msg "Subject" = Some h ->
  Py.truthy (raw h) = true ->
  decode_header h = [(CBytes b, Some "utf-8"%string)] ->
  utf8_valid b = true ->
  body_by passes_loop_test msg = Ok body ->
  parse_email env email_id w
  = (Ok (option_map value_of (get msg "From"), Some b, body), w).
Proof.
  intros F G T D V B.
  rewrite (parse_email_fetched env email_id msg w F).
  assert (S : first_chunk_subject env msg = Ok b).
  { unfold first_chunk_subject. rewrite G, (value_truthy h T), D.
    cbn [Py.truthy]. now rewrite bytes_decode_utf8, V. }
  now rewrite (parsed_with_ok msg b body S B).
Qed.

(** X7.  A subject whose first part names a charset that is neither [utf-8]
    nor known to the codec registry makes [parse_email] raise
    [LookupError]; the world is left as it was. *)
Theorem unknown_charset_raises (email_id : bytes) (msg : Message) (h : Header)
  (b : bytes) (charset : pystr) (more : list (Chunk * option pystr))
  (w : World) :
  fetch env email_id = ("OK"%string, msg) ->
  get msg "Subject" = Some h ->
  Py.truthy (raw h) = true ->
  decode_header h = (CBytes b, Some charset) :: more ->
  Py.truthy charset = true ->
  String.eqb charset "utf-8" = false ->
  codecs env charset = None ->
  parse_email env email_id w = (Raise LookupError, w) /\
  process_one env email_id w = (Raise LookupError, w).
Proof.
  intros F G T D C N R.
  assert (P : parse_email env email_id w = (Raise LookupError, w)).
  { rewrite (parse_email_fetched env email_id msg w F).
    unfold parsed_with, first_chunk_subject.
    rewrite G, (value_truthy h T), D, C.
    unfold bytes_decode. now rewrite N, R. }
  split; [exact P|]. unfold process_one, bind. now rewrite P.
Qed.

End Messages.

Section MessageSamples.

Local Open Scope list_scope.

Lemma undecodable_body_aborts_cycle_witness :
  process_emails
    (Sample.mailbox ["1"; "2"] (fun _ => ("OK"%string, Sample.latin1_message)))
    Sample.start
  = (Raise UnicodeDecodeError, Sample.start) /\
  run_system
    (Sample.mailbox ["1"; "2"] (fun _ => ("OK"%string, Sample.latin1_message))
     :: Sample.three_cycles)
    Sample.start
  = (Raise UnicodeDecodeError, Sample.start).
Proof.
  apply (undecodable_body_aborts_cycle
           (Sample.mailbox ["1"; "2"]
              (fun _ => ("OK"%string, Sample.latin1_message)))
           "1"%string ["2"%string] Sample.three_cycles Sample.latin1_message
           (String (ascii_of_N 233) "") "Caf" Sample.start).
  - reflexivity.
  - reflexivity.
  - reflexivity.
  - reflexivity.
  - reflexivity.
  - reflexivity.
  - reflexivity.
  - reflexivity.
Defined.

Lemma no_plain_part_no_content_witness :
  exists nid w' pre t,
    process_one
      (Sample.mailbox ["1"] (fun _ => ("OK"%string, Sample.html_only_message)))
      "1" Sample.start = (Ok tt, w') /\
    collection w' = pre ++ [t] /\
    _id t = nid /\
    message t = "No Content"%string /\
    subject t = "Newsletter"%string.
Proof.
  apply (no_plain_part_no_content
           (Sample.mailbox ["1"]
              (fun _ => ("OK"%string, Sample.html_only_message)))
           "1"%string Sample.html_only_message "Newsletter" Sample.start).
  - reflexivity.
  - intros h H. vm_compute in H. injection H as <-. reflexivity.
  - reflexivity.
  - reflexivity.
  - intros p [<-|[<-|[]]]; reflexivity.
Defined.

Lemma confirmation_matches_ticket_witness :
  exists nid w' pre t,
    process_one
      (Sample.mailbox ["1"] (fun _ => ("OK"%string, Sample.encoded_message)))
      "1" Sample.start = (Ok tt, w') /\
    collection w' = pre ++ [t] /\
    _id t = nid /\
    sender t = "frank@example.com"%string /\
    outbox w' =
      outbox Sample.start ++
      [{| mail_from := Some "Support Desk"%string;
          mail_to := Str "frank@example.com";
          mail_subject := "Support Ticket Update";
          mail_html :=
            Py.replace
              (Py.replace "<p>[CLIENT_NAME]: ticket [TICKET_NUMBER]</p>"
                 "[CLIENT_NAME]" "frank@example.com")
              "[TICKET_NUMBER]" (str_id nid) |}].
Proof.
  apply (confirmation_matches_ticket
           (Sample.mailbox ["1"]
              (fun _ => ("OK"%string, Sample.encoded_message)))
           "1"%string Sample.encoded_message
           (Sample.plain_header "frank@example.com") Sample.e_acute
           "<p>[CLIENT_NAME]: ticket [TICKET_NUMBER]</p>"
           (Some "Bonjour"%string) Sample.start).
  - reflexivity.
  - reflexivity.
  - reflexivity.
  - vm_compute. discriminate.
  - reflexivity.
  - reflexivity.
  - reflexivity.
  - reflexivity.
Defined.


Lemma utf8_subject_whole_witness :
  parse_email
    (Sample.mailbox ["1"] (fun _ => ("OK"%string, Sample.encoded_message)))
    "1" Sample.start
  = (Ok (Some (Str "frank@example.com"), Some Sample.e_acute,
         Some "Bonjour"%string), Sample.start).
Proof.
  apply (utf8_subject_whole
           (Sample.mailbox ["1"]
              (fun _ => ("OK"%string, Sample.encoded_message)))
           "1"%string Sample.encoded_message Sample.encoded_subject
           Sample.e_acute (Some "Bonjour"%string) Sample.start).
  - reflexivity.
  - reflexivity.
  - reflexivity.
  - reflexivity.
  - reflexivity.
  - reflexivity.
Defined.

Lemma unknown_charset_raises_witness :
  parse_email
    (Sample.mailbox ["1"] (fun _ => ("OK"%string, Sample.strange_message)))
    "1" Sample.start = (Raise LookupError, Sample.start) /\
  process_one
    (Sample.mailbox ["1"] (fun _ => ("OK"%string, Sample.strange_message)))
    "1" Sample.start = (Raise LookupError, Sample.start).
Proof.
  apply (unknown_charset_raises
           (Sample.mailbox ["1"]
              (fun _ => ("OK"%string, Sample.strange_message)))
           "1"%string Sample.strange_message Sample.strange_subject
           "abc"%string "x-nowhere"%string [] Sample.start).
  - reflexivity.
  - reflexivity.
  - reflexivity.
  - reflexivity.
  - reflexivity.
  - reflexivity.
  - reflexivity.
Defined.

Lemma header_object_sender_aborts_witness :
  exists first,
    process_one
      (Sample.mailbox ["1"; "2"]
         (fun _ => ("OK"%string, Sample.raw_octet_message)))
      "1" Sample.start
    = (Raise InvalidDocument,
       {| collection := [] ++ seed_if_empty [] first;
          clock_reads := 5;
          stdout := [];
          outbox := [] |}) /\
    process_emails
      (Sample.mailbox ["1"; "2"]
         (fun _ => ("OK"%string, Sample.raw_octet_message)))
      Sample.start
    = process_one
        (Sample.mailbox ["1"; "2"]
           (fun _ => ("OK"%string, Sample.raw_octet_message)))
        "1" Sample.start.
Proof.
  apply (header_object_sender_aborts
           (Sample.mailbox ["1"; "2"]
              (fun _ => ("OK"%string, Sample.raw_octet_message)))
           "1"%string ["2"%string] Sample.raw_octet_message
           Sample.raw_octet_from "Hola" (Some "Buenos dias"%string)
           Sample.start).
  - reflexivity.
  - reflexivity.
  - reflexivity.
  - reflexivity.
  - reflexivity.
  - reflexivity.
  - reflexivity.
  - reflexivity.
Defined.

End MessageSamples.

(** ** Further properties of ticket ids *)

Section Ids.

Local Open Scope list_scope.

(** X14.  The first id spells its date: for a valid date the digits above the
    six-digit counter read back as year, month and day, and the counter
    starts at 100000. *)
Theorem seed_reads_back_date (today : DateTime) :
  valid_date today ->
  exists id,
    initial_ticket_id (year today) (month today) (strftime_d today) 100000
      = Some id /\
    id / 10000000000 = Z.of_N (year today) /\
    (id / 100000000) mod 100 = Z.of_N (month today) /\
    (id / 1000000) mod 100 = Z.of_N (day today) /\
    id mod 1000000 = 100000.
Proof.
  intros [Vy [Vm Vd]].
  exists (date_seed (year today) (month today) (day today)).
  split; [apply initial_ticket_id_value; lia|].
  unfold date_seed.
  set (y := Z.of_N (year today)). set (m := Z.of_N (month today)).
  set (d := Z.of_N (day today)).
  assert (Hy : 1 <= y <= 9999) by (unfold y; lia).
  assert (Hm : 1 <= m <= 12) by (unfold m; lia).
  assert (Hd : 1 <= d <= 31) by (unfold d; lia).
  assert (D1 : ((y * 100 + m) * 100 + d) * 1000000 + 100000
               = 1000000 * ((y * 100 + m) * 100 + d) + 100000) by ring.
  assert (Q1 : (((y * 100 + m) * 100 + d) * 1000000 + 100000) / 1000000
               = (y * 100 + m) * 100 + d).
  { symmetry. apply (Z.div_unique _ _ _ 100000); [lia | exact D1]. }
  assert (Q2 : (((y * 100 + m) * 100 + d) * 1000000 + 100000) / 100000000
               = y * 100 + m).
  { symmetry. apply (Z.div_unique _ _ _ (d * 1000000 + 100000)); lia. }
  repeat split.
  - symmetry.
    apply (Z.div_unique _ _ _ (m * 100000000 + d * 1000000 + 100000)); lia.
  - rewrite Q2. symmetry. apply (Z.mod_unique _ _ y); lia.
  - rewrite Q1. symmetry. apply (Z.mod_unique _ _ (y * 100 + m)); lia.
  - symmetry. apply (Z.mod_unique _ _ ((y * 100 + m) * 100 + d)); lia.
Qed.

Lemma seed_reads_back_date_witness :
  exists id,
    initial_ticket_id 2026 11 (strftime_d (Sample.at_micro 0)) 100000
      = Some id /\
    id / 10000000000 = 2026 /\
    (id / 100000000) mod 100 = 11 /\
    (id / 1000000) mod 100 = 3 /\
    id mod 1000000 = 100000.
Proof.
  apply (seed_reads_back_date (Sample.at_micro 0)).
  unfold valid_date; simpl; lia.
Defined.

Lemma consecutive_cons (first : Z) (n : nat) :
  consecutive first (S n) = first :: consecutive (first + 1) n.
Proof.
  unfold consecutive. cbn [seq map]. f_equal; [lia|].
  rewrite <- seq_shift, map_map. apply map_ext. intros k. lia.
Qed.

Lemma is_max_id_append (ds : list Doc) (m : Z) (t : Doc) :
  is_max_id ds m -> _id t = m + 1 -> is_max_id (ds ++ [t]) (m + 1).
Proof.
  intros [_ U] E. split.
  - exists t. split; [apply in_or_app; right; now left | exact E].
  - intros x I. apply in_app_or in I. destruct I as [I|[<-|[]]].
    + apply U in I. lia.
    + lia.
Qed.

Lemma create_all_consecutive (env : Env) (reqs : list Request) (w : World)
  (m : Z) :
  is_max_id (collection w) m ->
  exists w',
    create_all env reqs w
    = (Ok (consecutive (m + 1) (List.length reqs)), w').
Proof.
  revert w m. induction reqs as [|r reqs IH]; intros w m Hm.
  - exists w. reflexivity.
  - destruct (create_ticket_nonempty env w r m Hm)
      as [w1 [t [Hc [_ [_ [_ Hm1]]]]]].
    destruct (IH w1 (m + 1) Hm1) as [w2 Ha].
    exists w2. cbn [create_all List.length]. destruct r as [[s subj] body].
    unfold bind. rewrite Hc. unfold bind in Ha |- *. rewrite Ha.
    now rewrite consecutive_cons.
Qed.

(** X15.  Seeded at a date with a four-digit year, a store hands out its ids
    without gaps: the first is [YYYYMMDD100000] and each creation after it
    gets the one before plus one. *)
Theorem ids_without_gaps (env : Env) (r : Request) (reqs : list Request)
  (w : World) :
  collection w = [] ->
  (1000 <= year (clock env (clock_reads w)))%N ->
  (month (clock env (S (clock_reads w))) <= 12)%N ->
  (day (clock env (S (S (clock_reads w)))) <= 31)%N ->
  exists w',
    create_all env (r :: reqs) w
    = (Ok (consecutive
             (date_seed (year (clock env (clock_reads w)))
                        (month (clock env (S (clock_reads w))))
                        (day (clock env (S (S (clock_reads w))))))
             (S (List.length reqs))), w').
Proof.
  intros E Hy Hmo Hd.
  destruct (generate_empty env w E) as [p [_ [Hi Hg]]].
  rewrite initial_ticket_id_value in Hi by lia. injection Hi as Hi.
  rewrite <- Hi in Hg. clear Hi p.
  set (first := date_seed (year (clock env (clock_reads w)))
                          (month (clock env (S (clock_reads w))))
                          (day (clock env (S (S (clock_reads w)))))) in *.
  assert (A : sentinel_id < first) by now apply date_seed_above_sentinel.
  destruct (create_ticket_run env w r) as [id [pre [k [Hg' [_ Hc]]]]].
  rewrite Hg in Hg'. injection Hg' as <- <- _.
  destruct (ticket_doc_id first r (to_millis (clock env k))
              (to_millis (clock env (S k)))) as [Ei _].
  set (w1 := {| collection :=
                  [sentinel_doc first]
                  ++ [ticket_doc first r (to_millis (clock env k))
                        (to_millis (clock env (S k)))];
                clock_reads := S (S k);
                stdout := stdout w ++ [TicketCreated first];
                outbox := outbox w |}) in *.
  assert (Hm : is_max_id (collection w1) first).
  { split.
    - eexists. split; [right; left; reflexivity | exact Ei].
    - intros d [<-|[<-|[]]]; [cbn [_id sentinel_doc]; lia | lia]. }
  destruct (create_all_consecutive env reqs w1 first Hm) as [w2 Ha].
  exists w2. destruct r as [[s subj] body]. cbn [create_all].
  unfold bind. rewrite Hc. unfold bind in Ha |- *. rewrite Ha.
  now rewrite consecutive_cons.
Qed.

Lemma ids_without_gaps_witness :
  exists w',
    create_all Sample.idle Sample.three_requests Sample.start
    = (Ok (consecutive (date_seed 2026 11 3) 3), w').
Proof.
  apply (ids_without_gaps Sample.idle
           (Some "alice@example.com"%string, Some "Help"%string,
            Some "It's broken"%string)
           [(None, None, None);
            (Some "bob@example.com"%string, Some ""%string, Some ""%string)]
           Sample.start).
  - reflexivity.
  - simpl; lia.
  - simpl; lia.
  - simpl; lia.
Defined.

Lemma ticket_doc_status (id : Z) (r : Request) (c u : DateTime) :
  status (ticket_doc id r c u) = "open"%string.
Proof. destruct r as [[? ?] ?]. reflexivity. Qed.

Lemma seed_if_empty_after (a b : list Doc) (t : Doc) (x : Z) :
  seed_if_empty (a ++ b ++ [t]) x = [].
Proof. destruct a; [destruct b|]; reflexivity. Qed.

Lemma reads_before_ticket_after (a b : list Doc) (t : Doc) (k : nat)
  (ls : list LogLine) (ms : list Mail) :
  reads_before_ticket {| collection := a ++ b ++ [t]; clock_reads := k;
                         stdout := ls; outbox := ms |} = k.
Proof.
  unfold reads_before_ticket. cbn [collection clock_reads].
  destruct a; [destruct b|]; reflexivity.
Qed.

Lemma tickets_from_length (env : Env) (email_ids : list bytes) :
  forall k added,
    tickets_from env k email_ids added ->
    List.length added = List.length email_ids.
Proof.
  induction email_ids as [|i rest IH]; intros k [|t ts] H;
    cbn [tickets_from] in H; try contradiction; [reflexivity|].
  destruct H as [_ H]. cbn [List.length]. f_equal. exact (IH _ _ H).
Qed.

(** The loop of [process_emails], when it ends without exception: one
    ticket per message id, in order, each the ticket of its own message,
    stamped with the next two reads of the clock. *)
Lemma for_each_tickets (env : Env) (email_ids : list bytes) (w w' : World) :
  for_each env email_ids w = (Ok tt, w') ->
  exists added mails,
    collection w' = collection w ++ seed_for (collection w) added ++ added /\
    tickets_from env (reads_before_ticket w) email_ids added /\
    outbox w' = outbox w ++ mails /\
    (List.length mails <= List.length email_ids)%nat /\
    (forall m, is_max_id (collection w) m ->
               map _id added = consecutive (m + 1) (List.length email_ids)).
Proof.
  revert w. induction email_ids as [|i rest IH]; intros w H.
  - injection H as <-. exists [], []. cbn. rewrite !app_nil_r.
    repeat split; try constructor; try lia.
  - cbn [for_each] in H. unfold bind in H.
    destruct (process_one_cases env i w)
      as [[e P]|[[nid P]|[nid [r [ls [ms [O [P [Hl [_ Hn]]]]]]]]]];
      rewrite P in H; try discriminate.
    apply IH in H. rewrite reads_before_ticket_after in H.
    cbn [collection outbox] in H.
    destruct H as [added [mails [Hc [Hf [Ho [Hlen Hcons]]]]]].
    set (t := ticket_doc nid r
                (to_millis (clock env (reads_before_ticket w)))
                (to_millis (clock env (S (reads_before_ticket w))))) in *.
    destruct (ticket_doc_id nid r
                (to_millis (clock env (reads_before_ticket w)))
                (to_millis (clock env (S (reads_before_ticket w)))))
      as [Ei _]. fold t in Ei.
    assert (Hs : seed_for (collection w ++ seed_if_empty (collection w) nid
                             ++ [t]) added = []).
    { unfold seed_for. destruct added; [reflexivity|].
      apply seed_if_empty_after. }
    rewrite Hs in Hc. cbn [app] in Hc.
    exists (t :: added), (ms ++ mails).
    split.
    { rewrite Hc. cbn [seed_for]. rewrite Ei, <- !app_assoc. reflexivity. }
    split.
    { cbn [tickets_from]. split; [|exact Hf].
      exists r. split; [exact O|]. now rewrite Ei. }
    split; [now rewrite Ho, app_assoc|].
    split; [rewrite length_app; cbn [List.length]; lia|].
    intros m Hm. specialize (Hn m Hm). subst nid.
    cbn [map List.length]. rewrite consecutive_cons, Ei. f_equal.
    apply Hcons.
    assert (Hse : seed_if_empty (collection w) (m + 1) = []).
    { destruct Hm as [[x [I _]] _]. destruct (collection w); [destruct I|].
      reflexivity. }
    rewrite Hse. cbn [app]. now apply is_max_id_append.
Qed.

Lemma process_emails_loop (env : Env) (w w' : World) :
  login_ok env = true ->
  select_status env = "OK"%string ->
  process_emails env w = (Ok tt, w') ->
  exists w0,
    for_each env (unseen env) w0 = (Ok tt, w') /\
    collection w0 = collection w /\ outbox w0 = outbox w /\
    clock_reads w0 = clock_reads w.
Proof.
  intros L Sel H. unfold process_emails, connect_to_mail_service,
    fetch_unseen_emails, bind in H.
  rewrite L, Sel in H. cbn [ret negb] in H.
  change (String.eqb "OK" "OK") with true in H. cbn [negb] in H.
  destruct (unseen env) as [|i rest] eqn:U.
  - cbn in H. injection H as <-. eexists. split; [reflexivity|].
    now repeat split.
  - exists w. now repeat split.
Qed.

(** X4.  A poll cycle that logs in, selects the inbox and ends without
    exception has appended exactly one ticket per unseen message, in the
    order of the messages, and each is the ticket of its own message: it
    holds the fields [parse_email] returns for that message, defaults
    applied, with status "open", [ticket_id] equal to [_id], and as
    timestamps the next two reads of the clock, cut to the millisecond.
    In front of them stands the sentinel when the store was empty, and at
    most one mail per message was sent. *)
Theorem one_ticket_per_message (env : Env) (w w' : World) :
  login_ok env = true ->
  select_status env = "OK"%string ->
  process_emails env w = (Ok tt, w') ->
  exists added mails,
    collection w' = collection w ++ seed_for (collection w) added ++ added /\
    tickets_from env (reads_before_ticket w) (unseen env) added /\
    List.length added = List.length (unseen env) /\
    outbox w' = outbox w ++ mails /\
    (List.length mails <= List.length (unseen env))%nat.
Proof.
  intros L Sel H.
  destruct (process_emails_loop env w w' L Sel H) as [w0 [H0 [Ec [Eo Ek]]]].
  destruct (for_each_tickets env _ w0 w' H0)
    as [added [mails [Hc [Hf [Ho [Hl _]]]]]].
  assert (Er : reads_before_ticket w0 = reads_before_ticket w).
  { unfold reads_before_ticket. now rewrite Ec, Ek. }
  rewrite Ec in Hc. rewrite Eo in Ho. rewrite Er in Hf.
  exists added, mails. repeat split; try assumption.
  exact (tickets_from_length env _ _ _ Hf).
Qed.

(** X5.  On a store that already holds documents, a poll cycle that ends
    without exception numbers its tickets in the order of the unseen
    messages: the ticket of the k-th message (counting from 0) gets the
    greatest id present plus 1 plus k and is stamped with the reads
    number 2k and 2k + 1 the cycle makes of the clock, and nothing else
    is appended. *)
Theorem cycle_numbers_in_mailbox_order (env : Env) (w w' : World) (m : Z) :
  login_ok env = true ->
  select_status env = "OK"%string ->
  is_max_id (collection w) m ->
  process_emails env w = (Ok tt, w') ->
  exists added,
    collection w' = collection w ++ added /\
    tickets_from env (clock_reads w) (unseen env) added /\
    map _id added = consecutive (m + 1) (List.length (unseen env)).
Proof.
  intros L Sel Hm H.
  destruct (process_emails_loop env w w' L Sel H) as [w0 [H0 [Ec [_ Ek]]]].
  destruct (for_each_tickets env _ w0 w' H0)
    as [added [mails [Hc [Hf [_ [_ Hcons]]]]]].
  rewrite Ec in Hc, Hcons.
  assert (Hne : collection w <> []).
  { destruct Hm as [[x [I _]] _]. destruct (collection w); [destruct I|].
    discriminate. }
  assert (Er : reads_before_ticket w0 = clock_reads w).
  { unfold reads_before_ticket. rewrite Ec, Ek.
    destruct (collection w); [contradiction | reflexivity]. }
  rewrite Er in Hf.
  exists added. split; [|split; [exact Hf | now apply Hcons]].
  rewrite Hc. f_equal. unfold seed_for. destruct added; [reflexivity|].
  destruct (collection w); [contradiction | reflexivity].
Qed.

End Ids.

Section IdSamples.

Local Open Scope list_scope.

Lemma one_ticket_per_message_witness :
  exists added mails,
    collection
      (snd (process_emails
              (Sample.mailbox ["1"; "2"]
                 (fun i => if String.eqb i "1"
                           then ("OK"%string, Sample.reply_message)
                           else ("OK"%string, Sample.anonymous_message)))
              Sample.start))
    = collection Sample.start ++ seed_for (collection Sample.start) added
        ++ added /\
    tickets_from
      (Sample.mailbox ["1"; "2"]
         (fun i => if String.eqb i "1"
                   then ("OK"%string, Sample.reply_message)
                   else ("OK"%string, Sample.anonymous_message)))
      (reads_before_ticket Sample.start)
      ["1"%string; "2"%string] added /\
    List.length added = 2%nat /\
    outbox
      (snd (process_emails
              (Sample.mailbox ["1"; "2"]
                 (fun i => if String.eqb i "1"
                           then ("OK"%string, Sample.reply_message)
                           else ("OK"%string, Sample.anonymous_message)))
              Sample.start))
    = outbox Sample.start ++ mails /\
    (List.length mails <= 2)%nat.
Proof.
  apply (one_ticket_per_message
           (Sample.mailbox ["1"; "2"]
              (fun i => if String.eqb i "1"
                        then ("OK"%string, Sample.reply_message)
                        else ("OK"%string, Sample.anonymous_message)))
           Sample.start).
  - reflexivity.
  - reflexivity.
  - vm_compute. reflexivity.
Defined.

Lemma cycle_numbers_in_mailbox_order_witness :
  exists added,
    collection
      (snd (process_emails
              (Sample.mailbox ["1"; "2"]
                 (fun i => if String.eqb i "1"
                           then ("OK"%string, Sample.reply_message)
                           else ("OK"%string, Sample.anonymous_message)))
              Sample.seeded))
    = collection Sample.seeded ++ added /\
    tickets_from
      (Sample.mailbox ["1"; "2"]
         (fun i => if String.eqb i "1"
                   then ("OK"%string, Sample.reply_message)
                   else ("OK"%string, Sample.anonymous_message)))
      (clock_reads Sample.seeded)
      ["1"%string; "2"%string] added /\
    map _id added = consecutive (20261103100000 + 1) 2.
Proof.
  apply (cycle_numbers_in_mailbox_order
           (Sample.mailbox ["1"; "2"]
              (fun i => if String.eqb i "1"
                        then ("OK"%string, Sample.reply_message)
                        else ("OK"%string, Sample.anonymous_message)))
           Sample.seeded
           (snd (process_emails
                   (Sample.mailbox ["1"; "2"]
                      (fun i => if String.eqb i "1"
                                then ("OK"%string, Sample.reply_message)
                                else ("OK"%string, Sample.anonymous_message)))
                   Sample.seeded))
           20261103100000).
  - reflexivity.
  - reflexivity.
  - split.
    + eexists. split; [right; left; reflexivity | reflexivity].
    + intros d [<-|[<-|[]]]; vm_compute; discriminate.
  - vm_compute. reflexivity.
Defined.

End IdSamples.

(** ** The confirmation text *)

Section Template.

Local Open Scope list_scope.




End Template.

(** ** Further properties of the store *)

Section StoreExtras.

Local Open Scope list_scope.

(** X13.  On an empty store the first id takes its year from the first clock
    read of the call, its month from the second and its day from the
    third, whether or not the three reads fall on one date; the sentinel
    is stored and nothing is printed or sent. *)
Theorem first_id_from_three_reads (env : Env) (w : World) :
  collection w = [] ->
  (month (clock env (S (clock_reads w))) <= 12)%N ->
  (day (clock env (S (S (clock_reads w)))) <= 31)%N ->
  generate_ticket_id env w
  = (Ok (date_seed (year (clock env (clock_reads w)))
                   (month (clock env (S (clock_reads w))))
                   (day (clock env (S (S (clock_reads w)))))),
     {| collection :=
          [sentinel_doc
             (date_seed (year (clock env (clock_reads w)))
                        (month (clock env (S (clock_reads w))))
                        (day (clock env (S (S (clock_reads w))))))];
        clock_reads := S (S (S (clock_reads w)));
        stdout := stdout w;
        outbox := outbox w |}).
Proof.
  intros E Hm Hd.
  destruct (generate_empty env w E) as [p [_ [Hi Hg]]].
  rewrite initial_ticket_id_value in Hi by lia. injection Hi as Hi.
  now rewrite Hg, <- Hi.
Qed.

Lemma first_id_from_three_reads_witness :
  generate_ticket_id Sample.at_midnight Sample.start
  = (Ok (date_seed 2026 1 1),
     {| collection := [sentinel_doc (date_seed 2026 1 1)];
        clock_reads := 3;
        stdout := [];
        outbox := [] |}).
Proof.
  apply (first_id_from_three_reads Sample.at_midnight Sample.start).
  - reflexivity.
  - simpl; lia.
  - simpl; lia.
Defined.

(** X16.  Reading back: after [create_ticket] returns an id for a text
    request, on any store, the collection holds exactly one document with
    that [_id].  It is the ticket of the request, defaults applied, status
    "open", with [created_at] the clock read made right after the id was
    generated and [updated_at] the read after that one, both cut to the
    millisecond. *)
Theorem created_ticket_read_back (env : Env) (w : World)
  (from ticket_subject ticket_message : option pystr) :
  exists id w',
    create_ticket env (option_map Str from) ticket_subject ticket_message w
      = (Ok id, w') /\
    In (ticket_doc id (from, ticket_subject, ticket_message)
          (to_millis (clock env (reads_before_ticket w)))
          (to_millis (clock env (S (reads_before_ticket w)))))
       (collection w') /\
    (forall d, In d (collection w') -> _id d = id ->
               d = ticket_doc id (from, ticket_subject, ticket_message)
                     (to_millis (clock env (reads_before_ticket w)))
                     (to_millis (clock env (S (reads_before_ticket w))))).
Proof.
  destruct (create_ticket_world env w (from, ticket_subject, ticket_message))
    as [id [Hc [Hn _]]].
  eexists id, _. split; [exact Hc|]. cbn [collection]. split.
  - apply in_or_app. right. apply in_or_app. right. left. reflexivity.
  - intros d I E. rewrite app_assoc in I.
    apply in_app_or in I. destruct I as [I|[<-|[]]].
    + exfalso. unfold has_id in Hn.
      assert (X : existsb (fun x => _id x =? id)
                    (collection w ++ seed_if_empty (collection w) id)
                  = true).
      { apply existsb_exists. exists d. split; [exact I|].
        now apply Z.eqb_eq. }
      congruence.
    + reflexivity.
Qed.

(** X17.  The [ticket_id] field does not identify a document: after a run of
    creations on an empty store, the first id is the [ticket_id] of two
    documents, the sentinel and the first ticket, and of no other. *)
Theorem first_ticket_id_shared (env : Env) (r : Request)
  (reqs : list Request) (w : World) :
  collection w = [] ->
  exists first ids w' t,
    create_all env (r :: reqs) w = (Ok (first :: ids), w') /\
    _id t = first /\
    filter (fun d => ticket_id d =? first) (collection w')
    = [sentinel_doc first; t].
Proof.
  intros E.
  destruct (create_all_empty env r reqs w E)
    as [first [ids [w' [ts [Ha [_ [Hs [Hmap [Hf [_ Hso]]]]]]]]]].
  destruct ts as [|t ts]; [discriminate|].
  cbn [map] in Hmap. injection Hmap as Ht Hids.
  exists first, ids, w', t. split; [exact Ha|]. split; [exact Ht|].
  rewrite Hs. cbn [filter ticket_id sentinel_doc]. rewrite Z.eqb_refl.
  inversion Hf as [|? ? Et Hf']; subst.
  rewrite Et, Z.eqb_refl. do 2 f_equal.
  inversion Hso as [|? ? _ Hgt]; subst.
  clear - Hf' Hgt. induction ts as [|x ts IH]; [reflexivity|].
  cbn [filter map] in *.
  inversion Hf' as [|? ? Ex Hf'']; subst.
  inversion Hgt as [|? ? Gx Hgt']; subst.
  rewrite Ex. destruct (Z.eqb_spec (_id x) (_id t)) as [Q|Q]; [lia|].
  now apply IH.
Qed.

Lemma first_ticket_id_shared_witness :
  exists first ids w' t,
    create_all Sample.idle Sample.three_requests Sample.start
    = (Ok (first :: ids), w') /\
    _id t = first /\
    filter (fun d => ticket_id d =? first) (collection w')
    = [sentinel_doc first; t].
Proof.
  apply (first_ticket_id_shared Sample.idle
           (Some "alice@example.com"%string, Some "Help"%string,
            Some "It's broken"%string)
           [(None, None, None);
            (Some "bob@example.com"%string, Some ""%string, Some ""%string)]
           Sample.start).
  reflexivity.
Defined.

End StoreExtras.
